(** * hsadmin: the real-time change-notification pipeline

    A shallow embedding of
      - [internal/sets]      (the generic set used by the change detectors),
      - [internal/models]    (the accessors of [Machine] read by the poller),
      - [internal/events]    (the SSE [Broker] and its event loop [run]),
      - [internal/handlers]  (the SSE transport loop, the poller and the two
                              change detectors),
    followed by the properties of the pipeline.

    Conventions.
      - A Go [map[K]V] is a [gmap K V]; a [sets.Set[T]] (a [map[T]struct{}]
        underneath) is a [gset T].  Go iterates a map in an unspecified
        order: loops over a map are written over [map_to_list] / [elements]
        and every result below is shown not to depend on that order.
      - [uint64] identifiers are [N]; Go [int] is [Z], with the 64-bit
        wrap-around written out where the code does arithmetic.
      - The values of the state maps are pointers ([*MachineState],
        [*UserState]) and the set fields are interface values.  The poller
        only ever stores the address of a fresh composite literal whose sets
        come from [sets.FromSlice], so a present key is modelled by the
        record itself; the one place where the code dereferences the result
        of a map lookup without testing [ok] is modelled as a possible
        panic.
      - Goroutines are modelled by their atomic steps: a step of the event
        loop [run] is the body of one case of its [select]; an exported
        operation of the broker is its channel operation.  A send on the
        unbuffered [register] or [unregister] completes at the rendezvous:
        the caller resumes before the loop has executed the body of the
        case, which is a step of its own.  An interleaving is the order
        in which these functions are applied.  The mutex of the broker
        guards the registry, which only [run] writes; it is not modelled. *)

From Stdlib Require Import Ascii.
From stdpp Require Import gmap strings list fin_maps fin_sets.

Local Open Scope string_scope.

(** Outcome of a call that may return, block for ever on a channel operation
    or panic. *)
Inductive outcome (A : Type) : Type :=
  | Returns (a : A)
  | Blocks
  | Panics.
Arguments Returns {A} a.
Arguments Blocks {A}.
Arguments Panics {A}.

(** ** internal/sets *)
Module Sets.
Section set.
Context {T : Type} {T_eq : EqDecision T} {T_cnt : Countable T}.

(** [func (s *set[T]) Add(t T)]: [s.m[t] = struct{}{}]. *)
Definition Add (t : T) (s : gset T) : gset T := {[ t ]} ∪ s.

(** [func FromSlice[T comparable](items []T) Set[T]]. *)
Definition FromSlice (items : list T) : gset T :=
foldl (fun s item => Add item s) ∅ items.

(** [func (s *set[T]) Len() int]. *)
Definition Len (s : gset T) : nat := size s.

(** [func (s *set[T]) Iter() iter.Seq[T]]: the items, in map order. *)
Definition Iter (s : gset T) : list T := elements s.

(** The loop of [Equals], over any enumeration of [s2]. *)
Fixpoint all_in (s : gset T) (items : list T) : bool :=
match items with
| [] => true
| item :: rest => if decide (item ∈ s) then all_in s rest else false
end.

(** [func (s *set[T]) Equals(s2 Set[T]) bool]. *)
Definition Equals (s s2 : gset T) : bool :=
if decide (Len s2 ≠ Len s) then false else all_in s (Iter s2).
End set.
End Sets.

(** ** The part of the headscale API messages that the pipeline reads *)
Module headscale.
Module User.
Record t := mk { Id : N; Name : string }.
End User.

Module Node.
Record t := mk {
  Id : N;
  User : option User.t;            (* [*User], may be nil *)
  ForcedTags : list string;
  ApprovedRoutes : list string;
  AvailableRoutes : list string;
}.
End Node.
End headscale.

(** ** internal/models: [Machine] and the accessors used by the poller *)
Module models.
Record Machine := mkMachine {
  Node : option headscale.Node.t;    (* [*headscale.Node], may be nil *)
  Online : bool;
}.

Definition is_exit_route (route : string) : bool :=
  bool_decide (route = "0.0.0.0/0") || bool_decide (route = "::/0").

(** [func (m *Machine) ID() uint64]. *)
Definition ID (m : Machine) : N :=
  match Node m with
  | Some n => headscale.Node.Id n
  | None => 0%N
  end.

(** [func (m *Machine) User() string]. *)
Definition User (m : Machine) : string :=
  match Node m with
  | Some n =>
      match headscale.Node.User n with
      | Some u => headscale.User.Name u
      | None => "-"
      end
  | None => "-"
  end.

(** [func (m *Machine) Tags() []string]. *)
Definition Tags (m : Machine) : list string :=
  match Node m with
  | Some n =>
      if decide (0 < length (headscale.Node.ForcedTags n))
      then headscale.Node.ForcedTags n else []
  | None => []
  end.

(** [func (m *Machine) ApprovedSubnets() []string]. *)
Definition ApprovedSubnets (m : Machine) : list string :=
  match Node m with
  | Some n =>
      List.filter (fun route => negb (is_exit_route route))
                  (headscale.Node.ApprovedRoutes n)
  | None => []
  end.

(** [func (m *Machine) ExitNodeApproved() bool]. *)
Definition ExitNodeApproved (m : Machine) : bool :=
  match Node m with
  | Some n =>
      let hasApproved := existsb is_exit_route (headscale.Node.ApprovedRoutes n) in
      if negb hasApproved then false
      else existsb is_exit_route (headscale.Node.AvailableRoutes n)
  | None => false
  end.

(** [func (m *Machine) ExitNodeAdvertised() bool]. *)
Definition ExitNodeAdvertised (m : Machine) : bool :=
  match Node m with
  | Some n =>
      let approvedMap : gset string :=
        list_to_set (headscale.Node.ApprovedRoutes n) in
      existsb (fun route => is_exit_route route
                            && negb (bool_decide (route ∈ approvedMap)))
              (headscale.Node.AvailableRoutes n)
  | None => false
  end.

(** [func (m *Machine) ExitNodeStatus() string]. *)
Definition ExitNodeStatus (m : Machine) : string :=
  if ExitNodeApproved m then "Allowed"
  else if ExitNodeAdvertised m then "Awaiting approval"
  else "".
End models.

(** ** internal/handlers: the per-entity projections *)
Module MachineState.
Record t := mk {
  ID : N;
  Online : bool;
  ApprovedRoutes : gset string;
  ExitNodeEnabled : bool;
  Tags : gset string;
}.
End MachineState.

Module UserState.
Record t := mk {
  ID : N;
  Name : string;
  MachineCount : Z;
}.
End UserState.

(** ** internal/handlers: the change detectors *)
Module detect.

(** [for id := range a { if _, exists := b[id]; !exists { return true } }]
    over an enumeration [ids] of the keys of [a]. *)
Fixpoint missing_in {V : Type} (b : gmap N V) (ids : list N) : bool :=
  match ids with
  | [] => false
  | id :: rest =>
      match b !! id with
      | None => true
      | Some _ => missing_in b rest
      end
  end.

(** The comparisons made on one machine present in both maps. *)
Definition machine_changed (curr prev : MachineState.t) : bool :=
  if negb (Bool.eqb (MachineState.Online curr) (MachineState.Online prev))
  then true
  else if negb (Sets.Equals (MachineState.ApprovedRoutes curr)
                            (MachineState.ApprovedRoutes prev))
          || negb (Bool.eqb (MachineState.ExitNodeEnabled curr)
                            (MachineState.ExitNodeEnabled prev))
  then true
  else if negb (Sets.Equals (MachineState.Tags curr) (MachineState.Tags prev))
  then true
  else false.

(** The third loop of [detectMachineChanges].  [prev := previous[id]] is
    not tested for presence: on a missing key [prev] is nil and
    [prev.Online] panics, which is [None] here. *)
Fixpoint changed_machines (previous : gmap N MachineState.t)
         (entries : list (N * MachineState.t)) : option bool :=
  match entries with
  | [] => Some false
  | (id, curr) :: rest =>
      match previous !! id with
      | None => None
      | Some prev =>
          if machine_changed curr prev then Some true
          else changed_machines previous rest
      end
  end.

(** [detectMachineChanges], the three [range] loops running in the given
    orders. *)
Definition detectMachineChanges_in
    (order1 order2 : list N) (order3 : list (N * MachineState.t))
    (current previous : gmap N MachineState.t) : option bool :=
  if missing_in previous order1 then Some true
  else if missing_in current order2 then Some true
  else changed_machines previous order3.

(** [func detectMachineChanges(current, previous map[uint64]*MachineState) bool]. *)
Definition detectMachineChanges
    (current previous : gmap N MachineState.t) : option bool :=
  detectMachineChanges_in (map_to_list current).*1 (map_to_list previous).*1
                          (map_to_list current) current previous.

(** The loop of [detectUserChanges]. *)
Fixpoint changed_users (previous : gmap N UserState.t)
         (entries : list (N * UserState.t)) : bool :=
  match entries with
  | [] => false
  | (id, curr) :: rest =>
      match previous !! id with
      | None => true
      | Some prev =>
          if bool_decide (UserState.Name curr ≠ UserState.Name prev)
             || bool_decide (UserState.MachineCount curr
                             ≠ UserState.MachineCount prev)
          then true
          else changed_users previous rest
      end
  end.

Definition detectUserChanges_in (order : list (N * UserState.t))
    (current previous : gmap N UserState.t) : bool :=
  if decide (size current ≠ size previous) then true
  else changed_users previous order.

(** [func detectUserChanges(current, previous map[uint64]*UserState) bool]. *)
Definition detectUserChanges (current previous : gmap N UserState.t) : bool :=
  detectUserChanges_in (map_to_list current) current previous.

(** *** What the detectors compare *)

Definition machine_tracked_eq (c p : MachineState.t) : Prop :=
  MachineState.Online c = MachineState.Online p
  ∧ MachineState.ApprovedRoutes c = MachineState.ApprovedRoutes p
  ∧ MachineState.ExitNodeEnabled c = MachineState.ExitNodeEnabled p
  ∧ MachineState.Tags c = MachineState.Tags p.

Definition user_tracked_eq (c p : UserState.t) : Prop :=
  UserState.Name c = UserState.Name p
  ∧ UserState.MachineCount c = UserState.MachineCount p.

(** Same members, and the tracked fields of every member agree. *)
Definition same_snapshot {V : Type} (R : V → V → Prop)
    (current previous : gmap N V) : Prop :=
  ∀ id, option_Forall2 R (current !! id) (previous !! id).

End detect.

(** ** internal/events: the broker *)
Module events.

(** [type Event struct { Type string; HTML string }]. *)
Record Event := mkEvent { Type_ : string; HTML : string }.

(** The zero value, which a receive on a closed and drained channel yields. *)
Definition zero_Event : Event := mkEvent "" "".

(** *** Go channels of events

    A [chan Event] is a bounded FIFO with a closed flag.  Its identity is
    its address: [chan_id]. *)
Definition chan_id := positive.

Record chan := mkChan { buf : list Event; cap : nat; closed : bool }.

(** [make(chan Event, n)]. *)
Definition make_chan (n : nat) : chan := mkChan [] n false.

(** [select { case c <- v: default: }]: returns the channel and whether the
    send was taken; panics on a closed channel. *)
Definition try_send (c : chan) (v : Event) : outcome (chan * bool) :=
  if closed c then Panics
  else if decide (length (buf c) < cap c)
       then Returns (mkChan (buf c ++ [v]) (cap c) false, true)
       else Returns (c, false).

(** [close(c)]: panics when [c] is closed already. *)
Definition close_chan (c : chan) : outcome chan :=
  if closed c then Panics else Returns (mkChan (buf c) (cap c) true).

(** [v, ok := <-c] when it is ready: the next buffered event, or the zero
    value with [ok = false] once [c] is closed and drained; [None] when the
    receive would block. *)
Definition recv (c : chan) : option (Event * bool * chan) :=
  match buf c with
  | v :: rest => Some (v, true, mkChan rest (cap c) (closed c))
  | [] => if closed c then Some (zero_Event, false, c) else None
  end.

(** *** The broker

    [clients] is the registry; [chans] holds every subscriber channel ever
    made (a channel outlives its registration: the transport keeps reading
    it); [broadcast] is the intake queue; [done] tells whether the [done]
    channel is closed; [running] tells whether the goroutine [run] has not
    returned yet.  [register] and [unregister] are unbuffered: a send on
    them completes only by being received by [run]. *)
Record Broker := mkBroker {
  clients : gmap chan_id bool;
  chans : gmap chan_id chan;
  broadcast : chan;
  done : bool;
  running : bool;
}.

Definition set_clients (f : gmap chan_id bool → gmap chan_id bool) (b : Broker) :=
  mkBroker (f (clients b)) (chans b) (broadcast b) (done b) (running b).
Definition set_chans (f : gmap chan_id chan → gmap chan_id chan) (b : Broker) :=
  mkBroker (clients b) (f (chans b)) (broadcast b) (done b) (running b).
Definition set_broadcast (c : chan) (b : Broker) :=
  mkBroker (clients b) (chans b) c (done b) (running b).

(** [func NewBroker() *Broker]. *)
Definition NewBroker : Broker :=
  mkBroker ∅ ∅ (make_chan 10) false true.

(** An offer of an event to a subscriber queue, and whether the queue
    took it. *)
Record offer := mkOffer { to : chan_id; what : Event; taken : bool }.

(** [for client := range b.clients { select { case client <- event: default: } }]
    with the clients ranged over in [order].  A [chan_id] without a channel
    behaves as the nil channel: never ready. *)
Fixpoint fanout (order : list chan_id) (event : Event)
         (cs : gmap chan_id chan) : outcome (gmap chan_id chan * list offer) :=
  match order with
  | [] => Returns (cs, [])
  | client :: rest =>
      match cs !! client with
      | None =>
          match fanout rest event cs with
          | Returns (cs', log) => Returns (cs', mkOffer client event false :: log)
          | Blocks => Blocks
          | Panics => Panics
          end
      | Some ch =>
          match try_send ch event with
          | Returns (ch', ok) =>
              match fanout rest event (<[client := ch']> cs) with
              | Returns (cs', log) => Returns (cs', mkOffer client event ok :: log)
              | Blocks => Blocks
              | Panics => Panics
              end
          | Blocks => Blocks
          | Panics => Panics
          end
      end
  end.

(** [for client := range b.clients { close(client) }] ranged in [order]. *)
Fixpoint close_all (order : list chan_id) (cs : gmap chan_id chan)
  : outcome (gmap chan_id chan) :=
  match order with
  | [] => Returns cs
  | client :: rest =>
      match cs !! client with
      | None => Panics                       (* close of the nil channel *)
      | Some ch =>
          match close_chan ch with
          | Returns ch' => close_all rest (<[client := ch']> cs)
          | Blocks => Blocks
          | Panics => Panics
          end
      end
  end.

(** *** The cases of the [select] in [run]

    Each is the body the loop executes once it has taken that case. *)

(** [case client := <-b.register]. *)
Definition run_register (client : chan_id) (b : Broker) : Broker :=
  set_clients (fun m => <[client := true]> m) b.

(** [case client := <-b.unregister]. *)
Definition run_unregister (client : chan_id) (b : Broker) : outcome Broker :=
  match clients b !! client with
  | Some _ =>
      match chans b !! client with
      | None => Panics                       (* close of the nil channel *)
      | Some ch =>
          match close_chan ch with
          | Returns ch' =>
              Returns (set_chans (fun m => <[client := ch']> m)
                         (set_clients (fun m => delete client m) b))
          | Blocks => Blocks
          | Panics => Panics
          end
      end
  | None => Returns b
  end.

(** [case event := <-b.broadcast], the registry ranged over in [order];
    not ready while the intake queue is empty. *)
Definition run_broadcast_in (order : list chan_id) (b : Broker)
  : outcome (Broker * list offer) :=
  match recv (broadcast b) with
  | None => Blocks
  | Some (event, _, intake) =>
      match fanout order event (chans b) with
      | Returns (cs, log) =>
          Returns (set_chans (fun _ => cs) (set_broadcast intake b), log)
      | Blocks => Blocks
      | Panics => Panics
      end
  end.

Definition run_broadcast (b : Broker) : outcome (Broker * list offer) :=
  run_broadcast_in (map_to_list (clients b)).*1 b.

(** [case <-b.done], ready once [done] is closed: closes every registered
    channel, empties the registry and returns from [run]. *)
Definition run_done_in (order : list chan_id) (b : Broker) : outcome Broker :=
  if done b then
    match close_all order (chans b) with
    | Returns cs => Returns (mkBroker ∅ cs (broadcast b) (done b) false)
    | Blocks => Blocks
    | Panics => Panics
    end
  else Blocks.

Definition run_done (b : Broker) : outcome Broker :=
  run_done_in (map_to_list (clients b)).*1 b.

(** *** The exported operations

    [register] and [unregister] are unbuffered.  A send on one of them is a
    rendezvous with [run]: it completes as soon as [run], at its [select],
    has received the value, and the sender resumes at once, before [run]
    has executed the body of the case; it blocks for ever once [run] has
    returned.  So [Subscribe] and [Unsubscribe] leave the registry as it
    is: the registry changes when the loop applies [run_register] or
    [run_unregister] to the handle it received.  (While [done] is closed
    and [run] has not yet taken that case, the [select] may pick either;
    this is the order in which the functions below and [run_done] are
    applied.) *)

(** [func (b *Broker) Subscribe() chan Event]:
    [client := make(chan Event, 5); b.register <- client; return client].
    The loop then holds [client] and executes [run_register client]. *)
Definition Subscribe (b : Broker) : outcome (chan_id * Broker) :=
  let client := fresh (dom (chans b)) in
  let b1 := set_chans (fun m => <[client := make_chan 5]> m) b in
  if running b then Returns (client, b1) else Blocks.

(** [func (b *Broker) Unsubscribe(client chan Event)]:
    [b.unregister <- client].  The loop then holds [client] and executes
    [run_unregister client]. *)
Definition Unsubscribe (client : chan_id) (b : Broker) : outcome Broker :=
  if running b then Returns b else Blocks.

(** What the loop holds between receiving a handle and having executed the
    body of the case. *)
Inductive loop_task :=
  | Registering (client : chan_id)
  | Unregistering (client : chan_id).

(** [func (b *Broker) Broadcast(event Event)]:
    [select { case b.broadcast <- event: default: }]. *)
Definition Broadcast (event : Event) (b : Broker) : outcome Broker :=
  match try_send (broadcast b) event with
  | Returns (intake, _) => Returns (set_broadcast intake b)
  | Blocks => Blocks
  | Panics => Panics
  end.

(** [func (b *Broker) ClientCount() int]. *)
Definition ClientCount (b : Broker) : Z := Z.of_nat (size (clients b)).

(** [func (b *Broker) Close()]: [close(b.done)]. *)
Definition Close (b : Broker) : outcome Broker :=
  if done b then Panics
  else Returns (mkBroker (clients b) (chans b) (broadcast b) true (running b)).

(** *** The invariant of a broker whose channels only the broker closes *)
Record WF (b : Broker) : Prop := mkWF {
  wf_registered : ∀ c v, clients b !! c = Some v →
    ∃ ch, chans b !! c = Some ch ∧ closed ch = false ∧ cap ch = 5
          ∧ (length (buf ch) ≤ 5)%nat;
  wf_intake_open : closed (broadcast b) = false;
  wf_intake_cap : cap (broadcast b) = 10;
  wf_intake_len : (length (buf (broadcast b)) ≤ 10)%nat;
}.

(** What a non-blocking send of [event] leaves of the channel [ch], and
    whether [ch] took it. *)
Definition has_room (ch : chan) : bool :=
  bool_decide (length (buf ch) < cap ch)%nat.

Definition after_offer (event : Event) (ch : chan) : chan :=
  if has_room ch then mkChan (buf ch ++ [event]) (cap ch) false else ch.

(** How many offers of the log went to the queue [c]. *)
Definition offers_to (c : chan_id) (log : list offer) : nat :=
  length (filter (fun o => to o = c) log).

End events.

(** ** internal/handlers: the SSE transport and the poller *)
Module handlers.
Import events.

(** *** The transport loop of [HandleSSE] *)

Definition nl : string := String "010"%char EmptyString.
Definition dquote : string := String "034"%char EmptyString.

(** [strings.Split(s, "\n")]. *)
Fixpoint split_lines (s : string) : list string :=
  match s with
  | EmptyString => [EmptyString]
  | String c rest =>
      if Ascii.eqb c "010"%char then EmptyString :: split_lines rest
      else match split_lines rest with
           | line :: lines => String c line :: lines
           | [] => [String c EmptyString]
           end
  end.

(** What one event adds to the response:
    [event: <type>\n], one [data: <line>\n] per line of the HTML, [\n]. *)
Definition frame (event : Event) : string :=
  "event: " +:+ Type_ event +:+ nl
  +:+ foldr (fun line acc => "data: " +:+ line +:+ nl +:+ acc) nl
            (split_lines (HTML event)).

Inductive stream_status :=
  | Exited          (* [return]: the deferred Unsubscribe runs next *)
  | Waiting         (* blocked in the select: neither case is ready *)
  | Streaming.      (* an event was framed; the loop goes round again *)

(** One pass through
    [select { case event := <-clientChan: ...; case <-r.Context().Done(): return }].
    [ctx_done] tells whether the request context is cancelled; when both
    cases are ready the select picks one, [pick_ctx] telling which.  The
    receive does not test [ok].  [w] is what has been written to the
    response, one entry per frame. *)
Definition stream_select (ctx_done pick_ctx : bool) (clientChan : chan)
    (w : list string) : stream_status * chan * list string :=
  match recv clientChan with
  | Some (event, _, clientChan') =>
      if ctx_done && pick_ctx then (Exited, clientChan, w)
      else (Streaming, clientChan', (w ++ [frame event])%list)
  | None =>
      if ctx_done then (Exited, clientChan, w) else (Waiting, clientChan, w)
  end.

(** The [for] loop, for as many passes as [sched] has entries
    [(ctx_done, pick_ctx)], while nobody else touches [clientChan]. *)
Fixpoint stream (sched : list (bool * bool)) (clientChan : chan)
    (w : list string) : stream_status * chan * list string :=
  match sched with
  | [] => (Streaming, clientChan, w)
  | (ctx_done, pick_ctx) :: rest =>
      match stream_select ctx_done pick_ctx clientChan w with
      | (Streaming, clientChan', w') => stream rest clientChan' w'
      | stopped => stopped
      end
  end.

(** *** The poller *)

(** What the poller asks of its collaborators and of the broker. *)
Inductive call :=
  | CallFetchMachines
  | CallListUsers
  | CallDetectMachines
  | CallDetectUsers
  | CallExecuteTemplate (name : string)
  | CallBroadcast (event : Event).

(** The [data] handed to [ExecuteTemplate]. *)
Record TemplateData := mkData {
  Machines : option (list models.Machine);
  Users : list headscale.User.t;
}.

(** The answers of the external collaborators during one tick; [None] is
    [err != nil]. *)
Record Collaborators := mkCollab {
  FetchMachines : option (list models.Machine);
  ListUsers : option (list headscale.User.t);
  ExecuteTemplate : string → TemplateData → option string;
}.

(** The state the poller's goroutine works on: the broker and the record
    of the calls made so far. *)
Record World := mkWorld { broker : Broker; trace : list call }.

Definition M (A : Type) : Type := World → outcome (A * World).

Definition ret {A} (a : A) : M A := fun w => Returns (a, w).

Definition bind {A B} (m : M A) (k : A → M B) : M B :=
  fun w =>
    match m w with
    | Returns (a, w') => k a w'
    | Blocks => Blocks
    | Panics => Panics
    end.

Local Notation "x <- m ;; k" := (bind m (fun x => k))
  (at level 100, m at next level, right associativity).
Local Notation "m ;;; k" := (bind m (fun _ => k))
  (at level 100, right associativity).

Definition record (c : call) : M unit :=
  fun w => Returns (tt, mkWorld (broker w) (trace w ++ [c])).

Definition readBroker {A} (f : Broker → A) : M A :=
  fun w => Returns (f (broker w), w).

Definition callBroadcast (event : Event) : M unit :=
  record (CallBroadcast event) ;;;
  fun w =>
    match Broadcast event (broker w) with
    | Returns b' => Returns (tt, mkWorld b' (trace w))
    | Blocks => Blocks
    | Panics => Panics
    end.

Definition callDetectMachines (current previous : gmap N MachineState.t)
  : M bool :=
  record CallDetectMachines ;;;
  fun w =>
    match detect.detectMachineChanges current previous with
    | Some changed => Returns (changed, w)
    | None => Panics
    end.

Definition callDetectUsers (current previous : gmap N UserState.t) : M bool :=
  record CallDetectUsers ;;;
  ret (detect.detectUserChanges current previous).

Section poller.
Variable env : Collaborators.

Definition callExecuteTemplate (name : string) (data : TemplateData)
  : M (option string) :=
  record (CallExecuteTemplate name) ;;; ret (ExecuteTemplate env name data).

(** [func (h *SSEHandler) broadcastMachinesTableUpdate(ctx, machines, users)]. *)
Definition broadcastMachinesTableUpdate
    (machines : list models.Machine) (users : list headscale.User.t)
  : M unit :=
  r <- callExecuteTemplate "machines-table" (mkData (Some machines) users) ;;
  match r with
  | None => ret tt
  | Some html => callBroadcast (mkEvent "machinesTable" html)
  end.

(** [func (h *SSEHandler) broadcastUsersTableUpdate(ctx, users)]. *)
Definition broadcastUsersTableUpdate (users : list headscale.User.t)
  : M unit :=
  r <- callExecuteTemplate "users-table" (mkData None users) ;;
  match r with
  | None => ret tt
  | Some s =>
      let html := "<div id=" +:+ dquote +:+ "users-table" +:+ dquote
                  +:+ " hx-swap-oob=" +:+ dquote +:+ "true" +:+ dquote
                  +:+ ">" +:+ s +:+ "</div>" in
      callBroadcast (mkEvent "usersTable" html)
  end.

(** Go's [int]: 64 bits, two's complement. *)
Definition int_wrap (z : Z) : Z := ((z + 2 ^ 63) `mod` 2 ^ 64 - 2 ^ 63)%Z.

(** [func countMachinesPerUser(machines []*models.Machine) map[string]int]. *)
Definition countMachinesPerUser (machines : list models.Machine)
  : gmap string Z :=
  foldl (fun counts m =>
           <[models.User m :=
               int_wrap (default 0%Z (counts !! models.User m) + 1)]> counts)
        ∅ machines.

(** The map built at the head of [pollMachineChanges]. *)
Definition machineStates (machines : list models.Machine)
  : gmap N MachineState.t :=
  foldl (fun currentStates m =>
           <[models.ID m :=
               MachineState.mk (models.ID m) (models.Online m)
                 (Sets.FromSlice (models.ApprovedSubnets m))
                 (String.eqb (models.ExitNodeStatus m) "Approved")
                 (Sets.FromSlice (models.Tags m))]> currentStates)
        ∅ machines.

(** [func (h *SSEHandler) pollMachineChanges(ctx, machines, users, previousStates)]. *)
Definition pollMachineChanges
    (machines : list models.Machine) (users : list headscale.User.t)
    (previousStates : gmap N MachineState.t) : M (gmap N MachineState.t) :=
  let currentStates := machineStates machines in
  changed <- callDetectMachines currentStates previousStates ;;
  (if changed : bool then broadcastMachinesTableUpdate machines users
   else ret tt) ;;;
  ret currentStates.

(** The map built at the head of [pollUserChanges]. *)
Definition userStates (users : list headscale.User.t)
    (machineCounts : gmap string Z) : gmap N UserState.t :=
  foldl (fun currentStates user =>
           <[headscale.User.Id user :=
               UserState.mk (headscale.User.Id user)
                 (headscale.User.Name user)
                 (default 0%Z (machineCounts !! headscale.User.Name user))]>
             currentStates)
        ∅ users.

(** [func (h *SSEHandler) pollUserChanges(ctx, users, machineCounts, previousStates)]. *)
Definition pollUserChanges
    (users : list headscale.User.t) (machineCounts : gmap string Z)
    (previousStates : gmap N UserState.t) : M (gmap N UserState.t) :=
  let currentStates := userStates users machineCounts in
  changed <- callDetectUsers currentStates previousStates ;;
  (if changed : bool then broadcastUsersTableUpdate users else ret tt) ;;;
  ret currentStates.

(** The two maps local to [StartPolling]. *)
Record PollerState := mkPoller {
  lastMachineStates : gmap N MachineState.t;
  lastUserStates : gmap N UserState.t;
}.

(** The body of [case <-ticker.C:] in [StartPolling]; [continue] is
    returning the state as it is. *)
Definition tick (st : PollerState) : M PollerState :=
  clientCount <- readBroker ClientCount ;;
  if decide (clientCount = 0%Z) then ret st
  else
    record CallFetchMachines ;;;
    match FetchMachines env with
    | None => ret st
    | Some machines =>
        record CallListUsers ;;;
        match ListUsers env with
        | None => ret st
        | Some users =>
            let machineCounts := countMachinesPerUser machines in
            lastMachineStates' <-
              pollMachineChanges machines users (lastMachineStates st) ;;
            lastUserStates' <-
              pollUserChanges users machineCounts (lastUserStates st) ;;
            ret (mkPoller lastMachineStates' lastUserStates')
        end
    end.
End poller.

(** The events the poller handed to [Broadcast], oldest first. *)
Definition broadcasts (tr : list call) : list Event :=
  omap (fun c => match c with CallBroadcast e => Some e | _ => None end) tr.

(** The templates the poller rendered, oldest first. *)
Definition rendered (tr : list call) : list string :=
  omap (fun c => match c with CallExecuteTemplate n => Some n | _ => None end) tr.

End handlers.

(** ** internal/sets: comparison with a slice *)
Module SetsSlice.
Section set.
Context {T : Type} {T_eq : EqDecision T} {T_cnt : Countable T}.

(** [func (s *set[T]) EqualsSlice(s2 []T) bool]. *)
Definition EqualsSlice (s : gset T) (s2 : list T) : bool :=
  if decide (length s2 ≠ Sets.Len s) then false else Sets.all_in s s2.

End set.
End SetsSlice.

(** ** internal/models: the other route and exit-node accessors *)
Module routes.

(** [func (m *Machine) AdvertisedSubnets() []string]. *)
Definition AdvertisedSubnets (m : models.Machine) : list string :=
  match models.Node m with
  | Some n =>
      let approvedMap : gset string :=
        list_to_set (headscale.Node.ApprovedRoutes n) in
      List.filter (fun route => negb (bool_decide (route ∈ approvedMap))
                                && negb (models.is_exit_route route))
                  (headscale.Node.AvailableRoutes n)
  | None => []
  end.

(** [func (m *Machine) HasSubnetRoutes() bool]. *)
Definition HasSubnetRoutes (m : models.Machine) : bool :=
  bool_decide (0 < length (models.ApprovedSubnets m))
  || bool_decide (0 < length (AdvertisedSubnets m)).

(** [func (m *Machine) HasExitNode() bool]. *)
Definition HasExitNode (m : models.Machine) : bool :=
  models.ExitNodeApproved m || models.ExitNodeAdvertised m.

End routes.

(** ** internal/handlers: the machine counts of the users page *)
Module users_page.

(** The fields of [models.User] that [fetchUsersWithMachineCounts] derives
    from the machines ([LastSeenTime], a timestamp of the node, is not part
    of this projection). *)
Record UserRow := mkRow {
  HeadscaleUser : headscale.User.t;
  MachineCount : Z;
  HasConnectedMachine : bool;
}.

(** The grouping loop:
    [machinesByUser[userName] = append(machinesByUser[userName], m)]. *)
Definition machinesByUser (machines : list models.Machine)
  : gmap string (list models.Machine) :=
  foldl (fun acc m =>
           <[models.User m := (default [] (acc !! models.User m) ++ [m])%list]>
             acc)
        ∅ machines.

(** The loop of [fetchUsersWithMachineCounts] over the users, given the
    answers of [ListUsers] and [FetchMachines]. *)
Definition userRows (users : list headscale.User.t)
    (machines : list models.Machine) : list UserRow :=
  let byUser := machinesByUser machines in
  (fun hsUser =>
     let userMachines := default [] (byUser !! headscale.User.Name hsUser) in
     mkRow hsUser (Z.of_nat (length userMachines))
           (existsb models.Online userMachines)) <$> users.

(** [func (h *UsersHandler) fetchUsersWithMachineCounts(ctx)]: [None] is
    [err != nil]; users are fetched first. *)
Definition fetchUsersWithMachineCounts
    (listUsers : option (list headscale.User.t))
    (fetchMachines : option (list models.Machine)) : option (list UserRow) :=
  match listUsers with
  | None => None
  | Some users =>
      match fetchMachines with
      | None => None
      | Some machines => Some (userRows users machines)
      end
  end.

End users_page.

(** ** internal/config: the listener settings read by the middleware *)
Module config.

(** [type TailscaleListener struct]. *)
Record TailscaleListener := mkTailscale {
  Port : Z;
  AdminUserIDs : list N;
  AdminUserTags : list string;
}.

(** [type HTTPListener struct]; of [OIDC *OIDCConfig] the middleware reads
    only whether it is nil. *)
Record HTTPListener := mkHTTP {
  ListenAddr : string;
  OIDC : bool;
}.

(** [type ListenersConfig struct]: both listeners are pointers. *)
Record ListenersConfig := mkListeners {
  Tailscale : option TailscaleListener;
  HTTP : option HTTPListener;
}.

End config.

(** ** internal/auth: the authentication middleware *)
Module auth.

(** [type User struct]. *)
Record User := mkUser {
  ID : N;
  Email : string;
  Name : string;
  Method : string;
  Tags : list string;
}.

(** [type Middleware struct]: the listeners of its configuration, and
    whether [oidcAuth] is not nil. *)
Record Middleware := mkMiddleware {
  Listeners : config.ListenersConfig;
  oidcAuth : bool;
}.

(** [func NewMiddleware(cfg, tsnetClient) *Middleware]; [oidc_ok] tells
    whether [NewOIDCAuthenticator] succeeds. *)
Definition NewMiddleware (cfg : config.ListenersConfig) (oidc_ok : bool)
  : Middleware :=
  mkMiddleware cfg
    (match config.HTTP cfg with
     | Some http => config.OIDC http && oidc_ok
     | None => false
     end).

(** [func (m *Middleware) isPublicPath(path string) bool]. *)
Definition publicPaths : list string :=
  ["/auth/login"; "/auth/callback"; "/auth/logout"].

Definition isPublicPath (path : string) : bool :=
  existsb (fun publicPath =>
             String.eqb path publicPath
             || String.prefix (publicPath +:+ "/") path)
          publicPaths.

(** [func (m *Middleware) isAuthorizedUser(userID uint64, tags []string) bool]. *)
Definition isAuthorizedUser (m : Middleware) (userID : N) (tags : list string)
  : bool :=
  match config.Tailscale (Listeners m) with
  | None => false
  | Some ts =>
      if existsb (fun adminID => N.eqb userID adminID) (config.AdminUserIDs ts)
      then true
      else existsb (fun userTag =>
                      existsb (fun adminTag => String.eqb userTag adminTag)
                              (config.AdminUserTags ts))
                   tags
  end.

(** [strings.LastIndex(s, ":")]: [None] is -1. *)
Fixpoint LastIndex_colon (s : string) : option nat :=
  match s with
  | EmptyString => None
  | String c rest =>
      match LastIndex_colon rest with
      | Some i => Some (S i)
      | None => if Ascii.eqb c ":"%char then Some 0 else None
      end
  end.

(** What [WhoIs] answers about a peer: [tailcfg.Node.User] is an [int64];
    [Hostname] is what [Hostinfo.Hostname()] returns. *)
Record WhoIsNode := mkWhoIsNode {
  NodeUser : Z;
  NodeTags : list string;
  Hostname : string;
}.

Record WhoIsResponse := mkWhoIs {
  Node : option WhoIsNode;
  UserProfile : bool;                 (* whether it is not nil *)
}.

(** The errors of [authenticateWithWhoIs]. *)
Inductive authError :=
  | NoRemoteAddress
  | LookupFailed
  | IncompleteData
  | NoUserID
  | NotAuthorized (userID : N).

(** [func (m *Middleware) authenticateWithWhoIs(r)], which returns a user
    or an error, given
    the remote address of the request and the answers of the local client:
    [whoIs addr = None] is [err != nil]. *)
Definition authenticateWithWhoIs (m : Middleware) (remoteAddr : string)
    (whoIs : string → option WhoIsResponse) : User + authError :=
  if String.eqb remoteAddr "" then inr NoRemoteAddress
  else
    let remoteAddr :=
      match LastIndex_colon remoteAddr with
      | Some idx => String.substring 0 idx remoteAddr
      | None => remoteAddr
      end in
    match whoIs remoteAddr with
    | None => inr LookupFailed
    | Some resp =>
        match Node resp with
        | Some node =>
            if negb (UserProfile resp) then inr IncompleteData
            else if Z.eqb (NodeUser node) 0 then inr NoUserID
            else
              let userID := Z.to_N (NodeUser node `mod` 2 ^ 64) in
              let tags := NodeTags node in
              if negb (isAuthorizedUser m userID tags)
              then inr (NotAuthorized userID)
              else inl (mkUser userID "" (Hostname node) "whois" tags)
        | None => inr IncompleteData
        end
    end.

(** What the handler returned by [RequireAuth] does with a request: it
    calls [next], with or without a user in the context, or it calls
    [handleUnauthorized]. *)
Inductive decision :=
  | Next (user : option User)
  | Unauthorized.

(** [func (m *Middleware) RequireAuth(next http.Handler) http.Handler], on
    a request with the given path and remote address; [session] is what
    [AuthenticateFromSession] returns when it returns a user without
    error. *)
Definition RequireAuth (m : Middleware) (path remoteAddr : string)
    (whoIs : string → option WhoIsResponse) (session : option User)
  : decision :=
  match config.Tailscale (Listeners m), config.HTTP (Listeners m) with
  | None, None => Next None
  | tailscale, _ =>
      if isPublicPath path then Next None
      else
        let viaWhoIs :=
          match tailscale with
          | Some _ =>
              match authenticateWithWhoIs m remoteAddr whoIs with
              | inl user => Some user
              | inr _ => None
              end
          | None => None
          end in
        match viaWhoIs with
        | Some user => Next (Some user)
        | None =>
            if oidcAuth m then
              match session with
              | Some user => Next (Some user)
              | None => Unauthorized
              end
            else Unauthorized
        end
  end.

End auth.

(** * The vocabulary of the properties *)
Section vocabulary.
Import detect events handlers.

(** Two machines as fetched on two ticks that hold the same values: the
    route and tag slices may list their members in different orders and
    with repetitions. *)
Definition same_machine_values (m1 m2 : models.Machine) : Prop :=
  models.ID m1 = models.ID m2
  ∧ models.Online m1 = models.Online m2
  ∧ (∀ r, r ∈ models.ApprovedSubnets m1 ↔ r ∈ models.ApprovedSubnets m2)
  ∧ models.ExitNodeStatus m1 = models.ExitNodeStatus m2
  ∧ (∀ t, t ∈ models.Tags m1 ↔ t ∈ models.Tags m2).

(** Entity [id] differs between the two maps: it is in one map only, or a
    tracked field differs. *)
Definition machine_differs_at (current previous : gmap N MachineState.t)
    (id : N) : Prop :=
  match current !! id, previous !! id with
  | Some c, Some p =>
      MachineState.Online c ≠ MachineState.Online p
      ∨ MachineState.ApprovedRoutes c ≠ MachineState.ApprovedRoutes p
      ∨ MachineState.ExitNodeEnabled c ≠ MachineState.ExitNodeEnabled p
      ∨ MachineState.Tags c ≠ MachineState.Tags p
  | Some _, None | None, Some _ => True
  | None, None => False
  end.

Definition user_differs_at (current previous : gmap N UserState.t)
    (id : N) : Prop :=
  match current !! id, previous !! id with
  | Some c, Some p =>
      UserState.Name c ≠ UserState.Name p
      ∨ UserState.MachineCount c ≠ UserState.MachineCount p
  | Some _, None | None, Some _ => True
  | None, None => False
  end.

(** The states of a broker and of its loop: [NewBroker] with [run] at its
    [select], then any interleaving of the exported operations and of the
    steps of [run].  [reachable_with task b]: the broker is [b] and the loop
    is at its [select] (or has returned) when [task] is [None], and is
    about to execute the body of the case for the handle it has received
    when [task] is [Some _].  A rendezvous needs the loop at its [select];
    [Broadcast] and [Close] need nothing of the loop. *)
Inductive reachable_with : option loop_task → Broker → Prop :=
  | reach_new : reachable_with None NewBroker
  | reach_Subscribe b client b' :
      reachable_with None b → Subscribe b = Returns (client, b') →
      reachable_with (Some (Registering client)) b'
  | reach_run_register b client :
      reachable_with (Some (Registering client)) b →
      reachable_with None (run_register client b)
  | reach_Unsubscribe b client b' :
      reachable_with None b → Unsubscribe client b = Returns b' →
      reachable_with (Some (Unregistering client)) b'
  | reach_run_unregister b client b' :
      reachable_with (Some (Unregistering client)) b →
      run_unregister client b = Returns b' →
      reachable_with None b'
  | reach_Broadcast task b event b' :
      reachable_with task b → Broadcast event b = Returns b' →
      reachable_with task b'
  | reach_Close task b b' :
      reachable_with task b → Close b = Returns b' →
      reachable_with task b'
  | reach_run_broadcast b order b' log :
      reachable_with None b → running b = true →
      order ≡ₚ (map_to_list (clients b)).*1 →
      run_broadcast_in order b = Returns (b', log) → reachable_with None b'
  | reach_run_done b order b' :
      reachable_with None b → running b = true →
      order ≡ₚ (map_to_list (clients b)).*1 →
      run_done_in order b = Returns b' → reachable_with None b'.

Definition reachable (b : Broker) : Prop := ∃ task, reachable_with task b.

(** The handle the loop is about to register has an open, empty-enough
    queue of capacity 5 that is not registered. *)
Definition task_ready (task : option loop_task) (b : Broker) : Prop :=
  match task with
  | Some (Registering client) =>
      ∃ ch, chans b !! client = Some ch ∧ closed ch = false ∧ cap ch = 5
            ∧ (length (buf ch) ≤ 5)%nat
  | _ => True
  end.

(** The broker once a non-blocking [Broadcast] of [event] has returned. *)
Definition sent (event : Event) (b : Broker) : Broker :=
  mkBroker (clients b) (chans b) (after_offer event (broadcast b))
           (done b) (running b).

(** The events built by [broadcastMachinesTableUpdate] and
    [broadcastUsersTableUpdate] from a rendered template. *)
Definition machinesTable (html : string) : Event :=
  mkEvent "machinesTable" html.

Definition usersTable (s : string) : Event :=
  mkEvent "usersTable"
          ("<div id=" +:+ dquote +:+ "users-table" +:+ dquote
           +:+ " hx-swap-oob=" +:+ dquote +:+ "true" +:+ dquote
           +:+ ">" +:+ s +:+ "</div>").

(** The intake queue is never closed by the code. *)
Definition intake_open (w : World) : Prop :=
  closed (broadcast (broker w)) = false.

(** The calls one entity class adds to the record in a tick, given the
    detector's verdict and the outcome of the rendering. *)
Definition poll_calls (detector : call) (name : string)
    (mk : string → Event) (changed : bool) (render : option string)
  : list call :=
  match changed, render with
  | false, _ => [detector]
  | true, None => [detector; CallExecuteTemplate name]
  | true, Some html =>
      [detector; CallExecuteTemplate name; CallBroadcast (mk html)]
  end.

(** The broker after that: a broadcast is attempted only for a detected
    change whose rendering succeeded. *)
Definition poll_broker (mk : string → Event) (changed : bool)
    (render : option string) (b : Broker) : Broker :=
  match changed, render with
  | true, Some html => sent (mk html) b
  | _, _ => b
  end.

Definition after_poll (detector : call) (name : string)
    (mk : string → Event) (changed : bool) (render : option string)
    (w : World) : World :=
  mkWorld (poll_broker mk changed render (broker w))
          (trace w ++ poll_calls detector name mk changed render).

(** The call hands a machines-table event to the broker. *)
Definition machines_event (c : call) : Prop :=
  match c with
  | CallBroadcast e => Type_ e = "machinesTable"
  | _ => False
  end.

End vocabulary.

(** * Concrete states used as instances *)
Section instances.
Import detect events handlers.

Definition node_a : headscale.Node.t :=
  headscale.Node.mk 1 None ["tag:web"; "tag:db"]
    ["10.0.0.0/24"; "0.0.0.0/0"; "10.1.0.0/24"] ["0.0.0.0/0"].

(** The same node, its routes and tags listed in another order and twice. *)
Definition node_a' : headscale.Node.t :=
  headscale.Node.mk 1 None ["tag:db"; "tag:web"; "tag:db"]
    ["10.1.0.0/24"; "10.0.0.0/24"; "0.0.0.0/0"; "10.1.0.0/24"] ["0.0.0.0/0"].

(** Scenario 3 of the specification: the online flag of machine 1 flips. *)
Definition online_1 : gmap N MachineState.t :=
  {[ 1%N := MachineState.mk 1 true {[ "10.0.0.0/24" ]} false ∅ ]}.
Definition offline_1 : gmap N MachineState.t :=
  {[ 1%N := MachineState.mk 1 false {[ "10.0.0.0/24" ]} false ∅ ]}.

(** One user removed and another added: the count stays 1. *)
Definition users_now : gmap N UserState.t :=
  {[ 2%N := UserState.mk 2 "bob" 0 ]}.
Definition users_before : gmap N UserState.t :=
  {[ 1%N := UserState.mk 1 "alice" 0 ]}.

Definition ev : Event := mkEvent "machinesTable" "<table></table>".

(** Two subscribers: queue 1 is full, queue 2 is empty; queue 3 belongs to
    a subscriber that has unsubscribed; one event waits in the intake. *)
Definition busy_broker : Broker :=
  mkBroker (<[1%positive := true]> (<[2%positive := true]> ∅))
           (<[1%positive := mkChan [ev; ev; ev; ev; ev] 5 false]>
              (<[2%positive := make_chan 5]>
                 (<[3%positive := mkChan [] 5 true]> ∅)))
           (mkChan [ev] 10 false) false true.

Definition machine_a : models.Machine := models.mkMachine (Some node_a) true.
Definition alice : headscale.User.t := headscale.User.mk 1 "alice".

(** The collaborators fetch well; every rendering fails. *)
Definition env_render_fails : Collaborators :=
  mkCollab (Some [machine_a]) (Some [alice]) (fun _ _ => None).

(** The machine fetch succeeds; [ListUsers] fails. *)
Definition env_users_fail : Collaborators :=
  mkCollab (Some [machine_a]) None (fun _ _ => Some "<table></table>").

Definition first_tick : PollerState := mkPoller ∅ ∅.

End instances.

(** * The vocabulary of the further properties *)
Section more_vocabulary.
Import detect events handlers.

(** The projection [pollMachineChanges] stores for one machine. *)
Definition state_of_machine (m : models.Machine) : MachineState.t :=
  MachineState.mk (models.ID m) (models.Online m)
    (Sets.FromSlice (models.ApprovedSubnets m))
    (String.eqb (models.ExitNodeStatus m) "Approved")
    (Sets.FromSlice (models.Tags m)).

(** The number of machines whose [User()] is [name]. *)
Definition machines_of (name : string) (machines : list models.Machine)
  : list models.Machine :=
  filter (fun m => models.User m = name) machines.

(** Two machines that agree on everything the poller tracks except,
    possibly, their exit routes. *)
Definition same_but_exit_routes (m1 m2 : models.Machine) : Prop :=
  models.ID m1 = models.ID m2
  ∧ models.Online m1 = models.Online m2
  ∧ (∀ r, r ∈ models.ApprovedSubnets m1 ↔ r ∈ models.ApprovedSubnets m2)
  ∧ (∀ t, t ∈ models.Tags m1 ↔ t ∈ models.Tags m2).

(** A producer's [Broadcast] followed by the loop taking the broadcast
    case. *)
Definition publish (event : Event) (b : Broker) : outcome (Broker * list offer) :=
  match Broadcast event b with
  | Returns b1 => run_broadcast b1
  | Blocks => Blocks
  | Panics => Panics
  end.

(** The same for a sequence of events, one after the other. *)
Fixpoint publish_all (evs : list Event) (b : Broker) : outcome Broker :=
  match evs with
  | [] => Returns b
  | e :: rest =>
      match publish e b with
      | Returns (b1, _) => publish_all rest b1
      | Blocks => Blocks
      | Panics => Panics
      end
  end.

(** A sequence of [Broadcast] calls while the loop takes no case. *)
Fixpoint Broadcast_all (evs : list Event) (b : Broker) : outcome Broker :=
  match evs with
  | [] => Returns b
  | e :: rest =>
      match Broadcast e b with
      | Returns b1 => Broadcast_all rest b1
      | Blocks => Blocks
      | Panics => Panics
      end
  end.

(** The payload a client rebuilds from the data lines of a frame. *)
Fixpoint join_lines (lines : list string) : string :=
  match lines with
  | [] => EmptyString
  | [line] => line
  | line :: rest => line +:+ nl +:+ join_lines rest
  end.

Fixpoint has_newline (s : string) : bool :=
  match s with
  | EmptyString => false
  | String c rest => Ascii.eqb c "010"%char || has_newline rest
  end.

Fixpoint count_newlines (s : string) : nat :=
  match s with
  | EmptyString => 0
  | String c rest =>
      (if Ascii.eqb c "010"%char then 1 else 0) + count_newlines rest
  end.

End more_vocabulary.

(** * Further concrete instances *)
Section more_instances.
Import detect events handlers.

(** [node_a] before the approval of its exit route. *)
Definition node_a_pending : headscale.Node.t :=
  headscale.Node.mk 1 None ["tag:web"; "tag:db"]
    ["10.0.0.0/24"; "10.1.0.0/24"] ["0.0.0.0/0"].

End more_instances.

(** Instances for the further properties. *)
Section yet_more_instances.
Import detect events handlers auth.

Definition machine_a_pending : models.Machine :=
  models.mkMachine (Some node_a_pending) true.

(** The collaborators fetch well and the rendering succeeds. *)
Definition env_ok : Collaborators :=
  mkCollab (Some [machine_a]) (Some [alice]) (fun _ _ => Some "<table></table>").

(** Two subscribers, the first with four events waiting; nothing in the
    intake. *)
Definition idle_broker : Broker :=
  mkBroker (<[1%positive := true]> (<[2%positive := true]> ∅))
           (<[1%positive := mkChan [ev; ev; ev; ev] 5 false]>
              (<[2%positive := make_chan 5]> ∅))
           (make_chan 10) false true.

(** [busy_broker] once [Close] has been called. *)
Definition closing_broker : Broker :=
  mkBroker (clients busy_broker) (chans busy_broker) (broadcast busy_broker)
           true true.

(** One connection, live and over.  [session_live]: a subscriber has been
    handed to the loop and registered, and the event [ev] has been
    broadcast and fanned out to it.  [session_over]: the broker has then
    been closed and the loop has taken the shutdown case. *)
Definition session_live : Broker :=
  mkBroker (<[1%positive := true]> ∅)
           (<[1%positive := mkChan [ev] 5 false]> ∅)
           (mkChan [] 10 false) false true.

Definition session_over : Broker :=
  mkBroker ∅ (<[1%positive := mkChan [ev] 5 true]> ∅)
           (mkChan [] 10 false) true false.

Definition ev1 : Event := mkEvent "machinesTable" "<table>1</table>".
Definition ev2 : Event := mkEvent "usersTable" "<div>2</div>".

(** A middleware for a Tailscale listener with one admin ID and one admin
    tag, and a local client that knows one peer. *)
Definition admin_middleware : Middleware :=
  mkMiddleware
    (config.mkListeners (Some (config.mkTailscale 80 [1%N] ["tag:admin"])) None)
    false.

Definition laptop : WhoIsResponse :=
  mkWhoIs (Some (mkWhoIsNode 1 ["tag:laptop"] "laptop")) true.

Definition local_whois (addr : string) : option WhoIsResponse :=
  if String.eqb addr "100.64.0.1" then Some laptop else None.

End yet_more_instances.

(** * Properties *)

(** ** Facts about [internal/sets] *)
Section set_facts.
Context {T : Type} {T_eq : EqDecision T} {T_cnt : Countable T}.
Import Sets.

Lemma elem_of_foldl_Add (items : list T) (acc : gset T) (x : T) :
  x ∈ foldl (fun s item => Add item s) acc items ↔ x ∈ acc ∨ x ∈ items.
Proof.
  revert acc. induction items as [|i items IH]; intros acc; simpl.
  - rewrite elem_of_nil. tauto.
  - rewrite IH. unfold Add. rewrite elem_of_union, elem_of_singleton, elem_of_cons.
    tauto.
Qed.

Lemma elem_of_FromSlice (items : list T) (x : T) :
  x ∈ FromSlice items ↔ x ∈ items.
Proof.
  unfold FromSlice. rewrite elem_of_foldl_Add, elem_of_empty. tauto.
Qed.

Lemma all_in_true (s : gset T) (items : list T) :
  all_in s items = true ↔ ∀ x, x ∈ items → x ∈ s.
Proof.
  induction items as [|i items IH]; simpl.
  - split; [intros _ x Hx; inversion Hx | done].
  - destruct (decide (i ∈ s)) as [Hi|Hi].
    + rewrite IH. split.
      * intros Hall x Hx. apply elem_of_cons in Hx as [->|Hx]; auto.
      * intros Hall x Hx. apply Hall. by right.
    + split; [done|]. intros Hall. exfalso. apply Hi, Hall. by left.
Qed.

(** [Equals] decides equality of the two sets, whatever order [Iter]
    yields the items in. *)
Lemma Equals_true (s s2 : gset T) : Equals s s2 = true ↔ s = s2.
Proof.
  unfold Equals, Len, Iter. destruct (decide (size s2 ≠ size s)) as [Hne|Heq].
  - split; [done|]. intros ->. done.
  - apply dec_stable in Heq. rewrite all_in_true. split.
    + intros Hsub. symmetry. apply set_subseteq_size_eq.
      * intros x Hx. apply Hsub. by apply elem_of_elements.
      * lia.
    + intros -> x Hx. by apply elem_of_elements.
Qed.

Lemma Equals_false (s s2 : gset T) : Equals s s2 = false ↔ s ≠ s2.
Proof.
  rewrite <- Equals_true. destruct (Equals s s2); split; congruence.
Qed.

Lemma Equals_refl (s : gset T) : Equals s s = true.
Proof. by apply Equals_true. Qed.

(** Slices with the same members, in any order and with any repetition,
    build equal sets. *)
Lemma FromSlice_ext (l1 l2 : list T) :
  (∀ x, x ∈ l1 ↔ x ∈ l2) → FromSlice l1 = FromSlice l2.
Proof.
  intros Hl. apply set_eq. intros x. rewrite !elem_of_FromSlice. apply Hl.
Qed.
End set_facts.

(** ** Facts about the change detectors *)
Section detect_facts.
Import detect.

Lemma missing_in_true {V : Type} (b : gmap N V) (ids : list N) :
  missing_in b ids = true ↔ ∃ id, id ∈ ids ∧ b !! id = None.
Proof.
  induction ids as [|i ids IH]; simpl.
  - split; [done|]. intros (id & Hid & _). inversion Hid.
  - destruct (b !! i) as [v|] eqn:Hi.
    + rewrite IH. split.
      * intros (id & Hid & Hn). exists id. split; [by right|done].
      * intros (id & Hid & Hn). apply elem_of_cons in Hid as [->|Hid].
        -- congruence.
        -- by exists id.
    + split; [|done]. intros _. exists i. split; [by left|done].
Qed.

Lemma missing_in_false {V : Type} (b : gmap N V) (ids : list N) :
  missing_in b ids = false ↔ ∀ id, id ∈ ids → is_Some (b !! id).
Proof.
  split.
  - intros Hm id Hid. destruct (b !! id) eqn:Hb; [by eexists|].
    assert (missing_in b ids = true) by (apply missing_in_true; eauto).
    congruence.
  - intros Hall. destruct (missing_in b ids) eqn:Hm; [|done].
    apply missing_in_true in Hm as (id & Hid & Hn).
    destruct (Hall id Hid) as [v Hv]. congruence.
Qed.

Lemma keys_of_map {K : Type} {K_eq : EqDecision K} {K_cnt : Countable K}
    {V : Type} (m : gmap K V) (id : K) :
  id ∈ (map_to_list m).*1 ↔ is_Some (m !! id).
Proof.
  rewrite list_elem_of_fmap. split.
  - intros ([k v] & -> & Hkv). apply elem_of_map_to_list in Hkv. by eexists.
  - intros [v Hv]. exists (id, v). split; [done|].
    by apply elem_of_map_to_list.
Qed.

Lemma machine_changed_false (c p : MachineState.t) :
  machine_changed c p = false ↔ machine_tracked_eq c p.
Proof.
  unfold machine_changed, machine_tracked_eq.
  destruct (Bool.eqb (MachineState.Online c) (MachineState.Online p)) eqn:Ho;
    simpl.
  - apply Bool.eqb_prop in Ho.
    destruct (Sets.Equals (MachineState.ApprovedRoutes c)
                          (MachineState.ApprovedRoutes p)) eqn:Hr; simpl.
    + apply Equals_true in Hr.
      destruct (Bool.eqb (MachineState.ExitNodeEnabled c)
                         (MachineState.ExitNodeEnabled p)) eqn:He; simpl.
      * apply Bool.eqb_prop in He.
        destruct (Sets.Equals (MachineState.Tags c) (MachineState.Tags p))
          eqn:Ht; simpl.
        -- apply Equals_true in Ht. intuition congruence.
        -- apply Equals_false in Ht. intuition congruence.
      * apply Bool.eqb_false_iff in He. intuition congruence.
    + apply Equals_false in Hr. intuition congruence.
  - apply Bool.eqb_false_iff in Ho. intuition congruence.
Qed.

Lemma changed_machines_spec (previous : gmap N MachineState.t)
    (entries : list (N * MachineState.t)) :
  (∀ id c, (id, c) ∈ entries → is_Some (previous !! id)) →
  ∃ b, changed_machines previous entries = Some b
       ∧ (b = false ↔
          ∀ id c, (id, c) ∈ entries →
                  ∃ p, previous !! id = Some p ∧ machine_tracked_eq c p).
Proof.
  induction entries as [|[i c] entries IH]; intros Hin; simpl.
  - exists false. split; [done|]. split; [|done].
    intros _ id c Hc. inversion Hc.
  - destruct (Hin i c) as [p Hp]; [by left|]. rewrite Hp.
    destruct (machine_changed c p) eqn:Hch.
    + exists true. split; [done|]. split; [done|]. intros Hall.
      destruct (Hall i c) as (p' & Hp' & Heq); [by left|].
      assert (p' = p) as -> by congruence.
      apply machine_changed_false in Heq. congruence.
    + destruct IH as (b & Hb & Hiff).
      { intros id c' Hc'. apply (Hin id c'). by right. }
      exists b. split; [done|]. rewrite Hiff. split.
      * intros Hall id c' Hc'. apply elem_of_cons in Hc' as [[= -> ->]|Hc'].
        -- exists p. split; [done|]. by apply machine_changed_false.
        -- by apply Hall.
      * intros Hall id c' Hc'. apply Hall. by right.
Qed.

(** The verdict of [detectMachineChanges], whatever the orders in which the
    three loops range over the maps: it never panics, and it is [false]
    exactly when the two maps have the same keys and equal tracked fields. *)
Lemma detectMachineChanges_in_spec
    (order1 order2 : list N) (order3 : list (N * MachineState.t))
    (current previous : gmap N MachineState.t) :
  (∀ id, id ∈ order1 ↔ is_Some (current !! id)) →
  (∀ id, id ∈ order2 ↔ is_Some (previous !! id)) →
  (∀ id c, (id, c) ∈ order3 ↔ current !! id = Some c) →
  ∃ b, detectMachineChanges_in order1 order2 order3 current previous = Some b
       ∧ (b = false ↔ same_snapshot machine_tracked_eq current previous).
Proof.
  intros H1 H2 H3. unfold detectMachineChanges_in, same_snapshot.
  destruct (missing_in previous order1) eqn:Hm1.
  { exists true. split; [done|]. split; [done|]. intros Hs.
    apply missing_in_true in Hm1 as (id & Hid & Hn).
    apply H1 in Hid as [c Hc]. specialize (Hs id). rewrite Hc, Hn in Hs.
    inversion Hs. }
  destruct (missing_in current order2) eqn:Hm2.
  { exists true. split; [done|]. split; [done|]. intros Hs.
    apply missing_in_true in Hm2 as (id & Hid & Hn).
    apply H2 in Hid as [p Hp]. specialize (Hs id). rewrite Hp, Hn in Hs.
    inversion Hs. }
  rewrite missing_in_false in Hm1, Hm2.
  destruct (changed_machines_spec previous order3) as (b & Hb & Hiff).
  { intros id c Hc. apply Hm1, H1. apply H3 in Hc. by eexists. }
  exists b. split; [done|]. rewrite Hiff. split.
  - intros Hall id. destruct (current !! id) as [c|] eqn:Hc.
    + destruct (Hall id c) as (p & -> & Heq); [by apply H3|]. by constructor.
    + destruct (previous !! id) as [p|] eqn:Hp; [|constructor].
      destruct (Hm2 id) as [c' Hc']; [apply H2; by eexists|]. congruence.
  - intros Hs id c Hc. apply H3 in Hc. specialize (Hs id). rewrite Hc in Hs.
    inversion Hs as [c' p Heq|]; subst. by exists p.
Qed.

Lemma detectMachineChanges_spec (current previous : gmap N MachineState.t) :
  ∃ b, detectMachineChanges current previous = Some b
       ∧ (b = false ↔ same_snapshot machine_tracked_eq current previous).
Proof.
  apply detectMachineChanges_in_spec.
  - apply keys_of_map.
  - apply keys_of_map.
  - intros id c. apply elem_of_map_to_list.
Qed.

(** The order of iteration is irrelevant. *)
Lemma detectMachineChanges_any_order
    (order1 order2 : list N) (order3 : list (N * MachineState.t))
    (current previous : gmap N MachineState.t) :
  order1 ≡ₚ (map_to_list current).*1 →
  order2 ≡ₚ (map_to_list previous).*1 →
  order3 ≡ₚ map_to_list current →
  detectMachineChanges_in order1 order2 order3 current previous
  = detectMachineChanges current previous.
Proof.
  intros P1 P2 P3.
  destruct (detectMachineChanges_spec current previous) as (b & Hb & Hiff).
  destruct (detectMachineChanges_in_spec order1 order2 order3 current previous)
    as (b' & Hb' & Hiff').
  - intros id. rewrite P1. apply keys_of_map.
  - intros id. rewrite P2. apply keys_of_map.
  - intros id c. rewrite P3. apply elem_of_map_to_list.
  - rewrite Hb, Hb'. f_equal.
    destruct b, b'; try done; [symmetry|]; tauto.
Qed.

Lemma detectMachineChanges_false (current previous : gmap N MachineState.t) :
  detectMachineChanges current previous = Some false
  ↔ same_snapshot machine_tracked_eq current previous.
Proof.
  destruct (detectMachineChanges_spec current previous) as (b & Hb & Hiff).
  rewrite Hb, <- Hiff. split; congruence.
Qed.

Lemma detectMachineChanges_true (current previous : gmap N MachineState.t) :
  detectMachineChanges current previous = Some true
  ↔ ¬ same_snapshot machine_tracked_eq current previous.
Proof.
  destruct (detectMachineChanges_spec current previous) as (b & Hb & Hiff).
  rewrite Hb, <- Hiff. destruct b; split; intros; congruence.
Qed.

Lemma changed_users_false (previous : gmap N UserState.t)
    (entries : list (N * UserState.t)) :
  changed_users previous entries = false
  ↔ ∀ id c, (id, c) ∈ entries →
            ∃ p, previous !! id = Some p ∧ user_tracked_eq c p.
Proof.
  induction entries as [|[i c] entries IH]; simpl.
  - split; [|done]. intros _ id c Hc. inversion Hc.
  - destruct (previous !! i) as [p|] eqn:Hp.
    + destruct (bool_decide (UserState.Name c ≠ UserState.Name p)
                || bool_decide (UserState.MachineCount c
                                ≠ UserState.MachineCount p)) eqn:Hch.
      * split; [done|]. intros Hall.
        destruct (Hall i c) as (p' & Hp' & Hn & Hc); [by left|].
        assert (p' = p) as -> by congruence.
        apply orb_true_iff in Hch as [Hch|Hch];
          apply bool_decide_eq_true in Hch; done.
      * apply orb_false_iff in Hch as [Hn Hc].
        apply bool_decide_eq_false in Hn, Hc.
        apply dec_stable in Hn. apply dec_stable in Hc.
        rewrite IH. split.
        -- intros Hall id c' Hc'. apply elem_of_cons in Hc' as [[= -> ->]|Hc'].
           ++ by exists p.
           ++ by apply Hall.
        -- intros Hall id c' Hc'. apply Hall. by right.
    + split; [done|]. intros Hall.
      destruct (Hall i c) as (p' & Hp' & _); [by left|]. congruence.
Qed.

(** The verdict of [detectUserChanges], whatever the order of the loop. *)
Lemma detectUserChanges_in_false (order : list (N * UserState.t))
    (current previous : gmap N UserState.t) :
  (∀ id c, (id, c) ∈ order ↔ current !! id = Some c) →
  detectUserChanges_in order current previous = false
  ↔ same_snapshot user_tracked_eq current previous.
Proof.
  intros Ho. unfold detectUserChanges_in, same_snapshot.
  destruct (decide (size current ≠ size previous)) as [Hne|Heq].
  - split; [done|]. intros Hs. exfalso. apply Hne.
    rewrite <- !(size_dom (D := gset N)). f_equal. apply set_eq. intros id.
    rewrite !elem_of_dom. specialize (Hs id).
    inversion Hs; split; intros [? ?]; by eauto || congruence.
  - apply dec_stable in Heq. rewrite changed_users_false. split.
    + intros Hall.
      assert (dom current = dom previous) as Hdom.
      { apply set_subseteq_size_eq.
        - intros id. rewrite !elem_of_dom. intros [c Hc].
          destruct (Hall id c) as (p & Hp & _); [by apply Ho|]. by eexists.
        - rewrite !size_dom. lia. }
      intros id. destruct (current !! id) as [c|] eqn:Hc.
      * destruct (Hall id c) as (p & -> & Heq'); [by apply Ho|]. by constructor.
      * apply not_elem_of_dom in Hc. rewrite Hdom in Hc.
        apply not_elem_of_dom in Hc. rewrite Hc. constructor.
    + intros Hs id c Hc. apply Ho in Hc. specialize (Hs id).
      rewrite Hc in Hs. inversion Hs as [c' p Heq'|]; subst. by exists p.
Qed.

Lemma detectUserChanges_false (current previous : gmap N UserState.t) :
  detectUserChanges current previous = false
  ↔ same_snapshot user_tracked_eq current previous.
Proof.
  apply detectUserChanges_in_false. intros id c. apply elem_of_map_to_list.
Qed.

Lemma detectUserChanges_true (current previous : gmap N UserState.t) :
  detectUserChanges current previous = true
  ↔ ¬ same_snapshot user_tracked_eq current previous.
Proof.
  rewrite <- detectUserChanges_false.
  destruct (detectUserChanges current previous); split; intros; congruence.
Qed.

Lemma detectUserChanges_any_order (order : list (N * UserState.t))
    (current previous : gmap N UserState.t) :
  order ≡ₚ map_to_list current →
  detectUserChanges_in order current previous
  = detectUserChanges current previous.
Proof.
  intros P.
  assert (∀ id c, (id, c) ∈ order ↔ current !! id = Some c) as Hmem.
  { intros id c. rewrite P. apply elem_of_map_to_list. }
  pose proof (detectUserChanges_false current previous) as Hc.
  pose proof (detectUserChanges_in_false order current previous Hmem) as Ho.
  destruct (detectUserChanges_in order current previous),
           (detectUserChanges current previous); try done.
  - apply Ho, Hc. done.
  - symmetry. apply Hc, Ho. done.
Qed.

Lemma same_snapshot_refl {V : Type} (R : V → V → Prop) (S : gmap N V) :
  (∀ v, R v v) → same_snapshot R S S.
Proof. intros HR id. destruct (S !! id); by constructor. Qed.

End detect_facts.

(** ** The change detectors: reflexivity and sensitivity *)
Section detectors.
Import detect handlers.

(** [ExitNodeStatus] answers "Allowed", "Awaiting approval" or "", never
    "Approved": the [ExitNodeEnabled] field built by [pollMachineChanges]
    is false for every machine. *)
Remark ExitNodeStatus_never_Approved (m : models.Machine) :
  String.eqb (models.ExitNodeStatus m) "Approved" = false.
Proof.
  unfold models.ExitNodeStatus.
  by destruct (models.ExitNodeApproved m), (models.ExitNodeAdvertised m).
Qed.

Lemma machineStates_ext (ms1 ms2 : list models.Machine) :
  Forall2 same_machine_values ms1 ms2 → machineStates ms1 = machineStates ms2.
Proof.
  unfold machineStates. generalize (∅ : gmap N MachineState.t) as acc.
  intros acc Hall. revert acc.
  induction Hall as [|m1 m2 ms1 ms2 (Hid & Hon & Hr & Hx & Ht) _ IH];
    intros acc; simpl; [done|].
  rewrite Hid, Hon, Hx, (FromSlice_ext _ _ Hr), (FromSlice_ext _ _ Ht).
  apply IH.
Qed.

(** C5: the change detectors are reflexive.  [detectMachineChanges S S] and
    [detectUserChanges S S] return false for every snapshot map [S]; and two
    maps rebuilt independently from the same values, the route and tag sets
    coming from slices in different orders or with duplicates, compare as
    unchanged. *)
Theorem C5_detectors_reflexive :
  (∀ S : gmap N MachineState.t, detectMachineChanges S S = Some false)
  ∧ (∀ S : gmap N UserState.t, detectUserChanges S S = false)
  ∧ (∀ ms1 ms2 : list models.Machine,
       Forall2 same_machine_values ms1 ms2 →
       detectMachineChanges (machineStates ms1) (machineStates ms2)
       = Some false)
  ∧ (∀ (us : list headscale.User.t) (ms1 ms2 : list models.Machine),
       countMachinesPerUser ms1 = countMachinesPerUser ms2 →
       detectUserChanges (userStates us (countMachinesPerUser ms1))
                         (userStates us (countMachinesPerUser ms2)) = false)
  ∧ (∀ l1 l2 : list string,
       (∀ x, x ∈ l1 ↔ x ∈ l2) →
       Sets.Equals (Sets.FromSlice l1) (Sets.FromSlice l2) = true).
Proof.
  assert (∀ S : gmap N MachineState.t, detectMachineChanges S S = Some false)
    as Hm.
  { intros S. apply detectMachineChanges_false, same_snapshot_refl.
    intros v. by repeat split. }
  assert (∀ S : gmap N UserState.t, detectUserChanges S S = false) as Hu.
  { intros S. apply detectUserChanges_false, same_snapshot_refl.
    intros v. by split. }
  repeat split; try done.
  - intros ms1 ms2 Hsame. rewrite (machineStates_ext ms1 ms2 Hsame). apply Hm.
  - intros us ms1 ms2 ->. apply Hu.
  - intros l1 l2 Hl. apply Equals_true. by apply FromSlice_ext.
Qed.

Lemma differs_not_same_machines (current previous : gmap N MachineState.t)
    (id : N) :
  machine_differs_at current previous id →
  ¬ same_snapshot machine_tracked_eq current previous.
Proof.
  unfold machine_differs_at. intros Hd Hs. specialize (Hs id).
  destruct (current !! id) as [c|], (previous !! id) as [p|];
    inversion Hs as [? ? (Ho & Hr & Hx & Ht)|]; subst; try done.
  intuition congruence.
Qed.

Lemma differs_not_same_users (current previous : gmap N UserState.t)
    (id : N) :
  user_differs_at current previous id →
  ¬ same_snapshot user_tracked_eq current previous.
Proof.
  unfold user_differs_at. intros Hd Hs. specialize (Hs id).
  destruct (current !! id) as [c|], (previous !! id) as [p|];
    inversion Hs as [? ? (Hn & Hc)|]; subst; try done.
  intuition congruence.
Qed.

(** C6: the change detectors are sensitive to every tracked difference.  If
    some entity is in one map and not in the other, or is in both with a
    different online flag, route set, tag set (machines), name or machine
    count (users), the detector of its class returns true. *)
Theorem C6_detectors_sensitive :
  (∀ (current previous : gmap N MachineState.t) (id : N),
     machine_differs_at current previous id →
     detectMachineChanges current previous = Some true)
  ∧ (∀ (current previous : gmap N UserState.t) (id : N),
       user_differs_at current previous id →
       detectUserChanges current previous = true).
Proof.
  split.
  - intros current previous id Hd.
    apply detectMachineChanges_true. by eapply differs_not_same_machines.
  - intros current previous id Hd.
    apply detectUserChanges_true. by eapply differs_not_same_users.
Qed.

End detectors.

(** ** The detectors on concrete snapshots *)
Section detector_examples.
Import detect handlers.

Ltac eval_slices :=
  repeat match goal with
    | |- context [models.ApprovedSubnets ?m] =>
        let v := eval vm_compute in (models.ApprovedSubnets m) in
        change (models.ApprovedSubnets m) with v
    | |- context [models.Tags ?m] =>
        let v := eval vm_compute in (models.Tags m) in
        change (models.Tags m) with v
    end.

Lemma C5_rebuilt_witness :
  Forall2 same_machine_values
    [models.mkMachine (Some node_a) true]
    [models.mkMachine (Some node_a') true]
  ∧ detectMachineChanges
      (machineStates [models.mkMachine (Some node_a) true])
      (machineStates [models.mkMachine (Some node_a') true]) = Some false.
Proof.
  assert (Forall2 same_machine_values
            [models.mkMachine (Some node_a) true]
            [models.mkMachine (Some node_a') true]) as Hsame.
  { constructor; [|constructor].
    unfold same_machine_values. split_and!; try reflexivity;
      intros x; eval_slices; rewrite ?elem_of_cons, ?elem_of_nil; tauto. }
  split; [exact Hsame|].
  exact (proj1 (proj2 (proj2 C5_detectors_reflexive)) _ _ Hsame).
Defined.

Lemma C6_sensitive_witness :
  (machine_differs_at online_1 offline_1 1
   ∧ detectMachineChanges online_1 offline_1 = Some true)
  ∧ (user_differs_at users_now users_before 1
     ∧ detectUserChanges users_now users_before = true).
Proof.
  assert (machine_differs_at online_1 offline_1 1) as Hm.
  { unfold machine_differs_at, online_1, offline_1.
    rewrite !lookup_singleton_eq. left. discriminate. }
  assert (user_differs_at users_now users_before 1) as Hu.
  { unfold user_differs_at, users_now, users_before.
    rewrite lookup_singleton_eq, lookup_singleton_ne by done. exact I. }
  split; (split; [assumption|]).
  - exact (proj1 C6_detectors_sensitive _ _ _ Hm).
  - exact (proj2 C6_detectors_sensitive _ _ _ Hu).
Defined.

End detector_examples.

(** ** Facts about the broker *)
Section broker_facts.
Import events.

Lemma try_send_open (ch : chan) (event : Event) :
  closed ch = false →
  try_send ch event = Returns (after_offer event ch, has_room ch).
Proof.
  intros Hopen. unfold try_send, after_offer, has_room. rewrite Hopen.
  destruct (decide (length (buf ch) < cap ch)%nat) as [Hlt|Hge].
  - by rewrite bool_decide_eq_true_2.
  - by rewrite bool_decide_eq_false_2.
Qed.

Lemma after_offer_open (ch : chan) (event : Event) :
  closed ch = false → closed (after_offer event ch) = false.
Proof. unfold after_offer. by destruct (has_room ch). Qed.

Lemma after_offer_cap (ch : chan) (event : Event) :
  cap (after_offer event ch) = cap ch.
Proof. unfold after_offer. by destruct (has_room ch). Qed.

Lemma after_offer_len (ch : chan) (event : Event) :
  (length (buf ch) ≤ cap ch)%nat →
  (length (buf (after_offer event ch)) ≤ cap ch)%nat.
Proof.
  unfold after_offer, has_room. intros Hle. case_bool_decide; simpl; [|done].
  rewrite length_app. simpl. lia.
Qed.

(** The fan-out loop over distinct, open channels: it returns, it makes one
    offer per channel of [order], in that order, and each channel of [order]
    is left as its own non-blocking send leaves it, whatever the state of
    the others. *)
Lemma fanout_spec (order : list chan_id) (event : Event)
    (cs : gmap chan_id chan) :
  NoDup order →
  (∀ c, c ∈ order → ∃ ch, cs !! c = Some ch ∧ closed ch = false) →
  ∃ cs',
    fanout order event cs
    = Returns (cs', (fun c => mkOffer c event
                                (from_option has_room false (cs !! c)))
                    <$> order)
    ∧ (∀ c, c ∈ order → cs' !! c = after_offer event <$> cs !! c)
    ∧ (∀ c, c ∉ order → cs' !! c = cs !! c).
Proof.
  revert cs. induction order as [|c order IH]; intros cs Hnd Hopen; simpl.
  - exists cs. split; [done|]. split; [|done]. intros c Hc. inversion Hc.
  - apply NoDup_cons in Hnd as [Hc Hnd].
    destruct (Hopen c) as (ch & Hch & Hop); [by left|].
    rewrite Hch, (try_send_open _ _ Hop).
    destruct (IH (<[c := after_offer event ch]> cs) Hnd) as (cs' & Hf & Hin & Hout).
    { intros c' Hc'. assert (c ≠ c') by (intros ->; done).
      rewrite lookup_insert_ne by done. apply Hopen. by right. }
    rewrite Hf. exists cs'. split; [|split].
    + simpl. f_equal. f_equal. f_equal. apply list_fmap_ext.
      intros i c' Hc'. apply list_elem_of_lookup_2 in Hc'.
      assert (c ≠ c') by (intros ->; done).
      by rewrite lookup_insert_ne.
    + intros c' Hc'. apply elem_of_cons in Hc' as [->|Hc'].
      * rewrite Hout by done. rewrite lookup_insert_eq. by rewrite Hch.
      * assert (c ≠ c') by (intros ->; done).
        rewrite Hin by done. by rewrite lookup_insert_ne.
    + intros c' Hc'. apply not_elem_of_cons in Hc' as [Hne Hc'].
      rewrite Hout by done. by rewrite lookup_insert_ne.
Qed.

Lemma offers_to_fmap (c : chan_id) (f : chan_id → offer) (order : list chan_id) :
  (∀ c', to (f c') = c') → NoDup order →
  offers_to c (f <$> order) = if decide (c ∈ order) then 1 else 0.
Proof.
  intros Hf. unfold offers_to. induction 1 as [|c' order Hc' Hnd IH].
  - done.
  - rewrite fmap_cons, filter_cons.
    destruct (decide (to (f c') = c)) as [Heq|Hne].
    + rewrite Hf in Heq. subst c'. rewrite length_cons, IH.
      rewrite decide_False by done. rewrite decide_True by left. done.
    + rewrite Hf in Hne. rewrite IH.
      destruct (decide (c ∈ order)) as [Hin|Hnin].
      * rewrite decide_True by (by right). done.
      * rewrite decide_False; [done|].
        intros [?|?]%elem_of_cons; congruence.
Qed.

Lemma registry_order (b : Broker) (order : list chan_id) :
  order ≡ₚ (map_to_list (clients b)).*1 →
  NoDup order ∧ ∀ c, c ∈ order ↔ is_Some (clients b !! c).
Proof.
  intros P. split.
  - rewrite P. apply NoDup_fst_map_to_list.
  - intros c. rewrite P. apply keys_of_map.
Qed.

(** The broadcast case of [run] on a well-formed broker. *)
Lemma run_broadcast_in_spec (b : Broker) (order : list chan_id)
    (event : Event) (rest : list Event) :
  WF b →
  order ≡ₚ (map_to_list (clients b)).*1 →
  buf (broadcast b) = event :: rest →
  ∃ b',
    run_broadcast_in order b
    = Returns (b', (fun c => mkOffer c event
                               (from_option has_room false (chans b !! c)))
                   <$> order)
    ∧ clients b' = clients b
    ∧ buf (broadcast b') = rest
    ∧ done b' = done b ∧ running b' = running b
    ∧ (∀ c, is_Some (clients b !! c) →
            chans b' !! c = after_offer event <$> chans b !! c)
    ∧ (∀ c, clients b !! c = None → chans b' !! c = chans b !! c).
Proof.
  intros Hwf P Hbuf. destruct (registry_order b order P) as [Hnd Hmem].
  destruct (fanout_spec order event (chans b) Hnd) as (cs' & Hf & Hin & Hout).
  { intros c Hc. apply Hmem in Hc as [v Hv].
    destruct (wf_registered b Hwf c v Hv) as (ch & Hch & Hop & _).
    by exists ch. }
  unfold run_broadcast_in, recv. rewrite Hbuf, Hf.
  eexists. split; [done|]. simpl. split_and!; try done.
  - intros c Hc. apply Hin. by apply Hmem.
  - intros c Hc. apply Hout. rewrite Hmem, Hc. by intros [? ?].
Qed.

End broker_facts.

(** ** The invariant is kept by every operation *)
Section broker_invariant.
Import events.

Lemma WF_NewBroker : WF NewBroker.
Proof.
  split; simpl; try done; lia.
Qed.


Lemma fresh_chan_None (b : Broker) : chans b !! fresh (dom (chans b)) = None.
Proof. apply not_elem_of_dom, is_fresh. Qed.

Lemma WF_Subscribe (b b' : Broker) (client : chan_id) :
  WF b → Subscribe b = Returns (client, b') → WF b'.
Proof.
  intros Hwf. unfold Subscribe. destruct (running b); [|done].
  intros [= <- <-]. split; simpl; try apply Hwf.
  intros c v Hc.
  destruct (wf_registered b Hwf c v Hc) as (ch & Hch & Hrest).
  exists ch. split; [|done].
  rewrite lookup_insert_ne; [done|].
  intros <-. by rewrite fresh_chan_None in Hch.
Qed.

(** The register case on a well-formed broker, for a handle whose queue is
    open. *)
Lemma WF_run_register (b : Broker) (client : chan_id) (ch : chan) :
  WF b → chans b !! client = Some ch → closed ch = false → cap ch = 5 →
  (length (buf ch) ≤ 5)%nat →
  WF (run_register client b).
Proof.
  intros Hwf Hch Hop Hcap Hlen. split; simpl; try apply Hwf.
  intros c v Hc. destruct (decide (c = client)) as [->|Hne].
  - by exists ch.
  - rewrite lookup_insert_ne in Hc by done.
    by apply (wf_registered b Hwf c v).
Qed.

(** The unregister case on a well-formed broker. *)
Lemma run_unregister_spec (b : Broker) (client : chan_id) :
  WF b →
  ∃ b', run_unregister client b = Returns b'
    ∧ WF b'
    ∧ clients b' = delete client (clients b)
    ∧ broadcast b' = broadcast b ∧ done b' = done b ∧ running b' = running b
    ∧ (∀ c, c ≠ client → chans b' !! c = chans b !! c)
    ∧ (is_Some (clients b !! client) →
       ∃ ch, chans b !! client = Some ch ∧ closed ch = false
             ∧ chans b' !! client = Some (mkChan (buf ch) (cap ch) true))
    ∧ (clients b !! client = None → b' = b).
Proof.
  intros Hwf. unfold run_unregister.
  destruct (clients b !! client) as [v|] eqn:Hreg.
  - destruct (wf_registered b Hwf client v Hreg) as (ch & Hch & Hop & Hcap & Hlen).
    rewrite Hch. unfold close_chan. rewrite Hop. eexists. split; [done|].
    simpl. split_and!; try done.
    + split; simpl; try apply Hwf. intros c v' Hc.
      destruct (decide (c = client)) as [->|Hne].
      * by rewrite lookup_delete_eq in Hc.
      * rewrite lookup_delete_ne in Hc by done.
        rewrite lookup_insert_ne by done.
        by apply (wf_registered b Hwf c v').
    + intros c Hne. by rewrite lookup_insert_ne.
    + intros _. exists ch. by rewrite lookup_insert_eq.
  - exists b. split_and!; try done.
    symmetry. by apply delete_id.
Qed.

Lemma Broadcast_spec (event : Event) (b : Broker) :
  closed (broadcast b) = false →
  Broadcast event b
  = Returns (mkBroker (clients b) (chans b) (after_offer event (broadcast b))
                      (done b) (running b)).
Proof. intros Hop. unfold Broadcast. by rewrite (try_send_open _ _ Hop). Qed.

Lemma WF_Broadcast (event : Event) (b b' : Broker) :
  WF b → Broadcast event b = Returns b' → WF b'.
Proof.
  intros Hwf. rewrite Broadcast_spec by apply Hwf. intros [= <-].
  split; simpl.
  - apply Hwf.
  - apply after_offer_open, Hwf.
  - rewrite after_offer_cap. apply Hwf.
  - rewrite <- (wf_intake_cap b Hwf). apply after_offer_len.
    rewrite (wf_intake_cap b Hwf). apply Hwf.
Qed.

Lemma WF_run_broadcast_in (b b' : Broker) (order : list chan_id)
    (log : list offer) :
  WF b → order ≡ₚ (map_to_list (clients b)).*1 →
  run_broadcast_in order b = Returns (b', log) → WF b'.
Proof.
  intros Hwf P. unfold run_broadcast_in, recv.
  destruct (buf (broadcast b)) as [|event rest] eqn:Hbuf.
  { rewrite (wf_intake_open b Hwf). done. }
  destruct (run_broadcast_in_spec b order event rest Hwf P Hbuf)
    as (b1 & Hrun & Hcl & Hb & Hd & Hr & Hin & Hout).
  unfold run_broadcast_in, recv in Hrun. rewrite Hbuf in Hrun.
  rewrite Hrun. intros [= <- <-].
  destruct (fanout order event (chans b)) as [[cs log']| |]; [|done..].
  injection Hrun as <- _. split; simpl in *.
  - intros c v Hc.
    destruct (wf_registered b Hwf c v Hc) as (ch & Hch & Hop & Hcap & Hlen).
    exists (after_offer event ch). rewrite Hin by (by eexists).
    rewrite Hch. simpl. split_and!; try done.
    + by apply after_offer_open.
    + by rewrite after_offer_cap.
    + rewrite <- Hcap. apply after_offer_len. by rewrite Hcap.
  - apply Hwf.
  - apply Hwf.
  - pose proof (wf_intake_len b Hwf) as Hl. rewrite Hbuf in Hl. simpl in Hl. lia.
Qed.

Lemma WF_Close (b b' : Broker) : WF b → Close b = Returns b' → WF b'.
Proof.
  intros Hwf. unfold Close. destruct (done b); [done|]. intros [= <-].
  split; simpl; apply Hwf.
Qed.

(** Closing distinct, open channels: it returns, and exactly the channels
    of [order] end up closed, their buffers kept. *)
Lemma close_all_spec (order : list chan_id) (cs : gmap chan_id chan) :
  NoDup order →
  (∀ c, c ∈ order → ∃ ch, cs !! c = Some ch ∧ closed ch = false) →
  ∃ cs', close_all order cs = Returns cs'
    ∧ (∀ c, c ∈ order →
            cs' !! c = (fun ch => mkChan (buf ch) (cap ch) true) <$> cs !! c)
    ∧ (∀ c, c ∉ order → cs' !! c = cs !! c).
Proof.
  revert cs. induction order as [|c order IH]; intros cs Hnd Hopen; simpl.
  - exists cs. split; [done|]. split; [|done]. intros c Hc. inversion Hc.
  - apply NoDup_cons in Hnd as [Hc Hnd].
    destruct (Hopen c) as (ch & Hch & Hop); [by left|].
    rewrite Hch. unfold close_chan. rewrite Hop.
    destruct (IH (<[c := mkChan (buf ch) (cap ch) true]> cs) Hnd)
      as (cs' & Hf & Hin & Hout).
    { intros c' Hc'. assert (c ≠ c') by (intros ->; done).
      rewrite lookup_insert_ne by done. apply Hopen. by right. }
    exists cs'. split; [done|]. split.
    + intros c' Hc'. apply elem_of_cons in Hc' as [->|Hc'].
      * rewrite Hout by done. rewrite lookup_insert_eq. by rewrite Hch.
      * assert (c ≠ c') by (intros ->; done).
        rewrite Hin by done. by rewrite lookup_insert_ne.
    + intros c' Hc'. apply not_elem_of_cons in Hc' as [Hne Hc'].
      rewrite Hout by done. by rewrite lookup_insert_ne.
Qed.

(** The done case of [run] on a well-formed broker whose [done] channel is
    closed: every registered queue is closed, the registry is emptied and
    [run] returns. *)
Lemma run_done_in_spec (b : Broker) (order : list chan_id) :
  WF b → done b = true →
  order ≡ₚ (map_to_list (clients b)).*1 →
  ∃ b', run_done_in order b = Returns b'
    ∧ WF b'
    ∧ clients b' = ∅ ∧ running b' = false ∧ done b' = true
    ∧ broadcast b' = broadcast b
    ∧ (∀ c, is_Some (clients b !! c) →
            chans b' !! c
            = (fun ch => mkChan (buf ch) (cap ch) true) <$> chans b !! c)
    ∧ (∀ c, clients b !! c = None → chans b' !! c = chans b !! c).
Proof.
  intros Hwf Hdone P. destruct (registry_order b order P) as [Hnd Hmem].
  destruct (close_all_spec order (chans b) Hnd) as (cs' & Hf & Hin & Hout).
  { intros c Hc. apply Hmem in Hc as [v Hv].
    destruct (wf_registered b Hwf c v Hv) as (ch & Hch & Hop & _).
    by exists ch. }
  unfold run_done_in. rewrite Hdone, Hf. eexists. split; [done|]. simpl.
  split_and!; try done.
  - split; simpl; try apply Hwf. intros c v Hc. by rewrite lookup_empty in Hc.
  - intros c Hc. apply Hin. by apply Hmem.
  - intros c Hc. apply Hout. rewrite Hmem, Hc. by intros [? ?].
Qed.

End broker_invariant.

(** ** Every state the broker reaches is well formed *)
Section broker_reachable.
Import events.

Lemma reachable_with_WF (task : option loop_task) (b : Broker) :
  reachable_with task b → WF b ∧ task_ready task b.
Proof.
  induction 1 as [|b client b' _ [IH _] Hs|b client _ [IH Hready]
                  |b client b' _ [IH _] Hu|b client b' _ [IH _] Hun
                  |task b event b' _ [IH Hready] Hb
                  |task b b' _ [IH Hready] Hc
                  |b order b' log _ [IH _] Hr P Hrun
                  |b order b' _ [IH _] Hr P Hrun].
  - split; [apply WF_NewBroker|done].
  - split; [by eapply WF_Subscribe|].
    unfold Subscribe in Hs. destruct (running b); [|done].
    injection Hs as <- <-. simpl. exists (make_chan 5).
    rewrite lookup_insert_eq. simpl. split_and!; done || lia.
  - split; [|done]. destruct Hready as (ch & Hch & Hop & Hcap & Hlen).
    by eapply WF_run_register.
  - unfold Unsubscribe in Hu. destruct (running b); [|done].
    by injection Hu as <-.
  - split; [|done].
    destruct (run_unregister_spec b client IH) as (b'' & Hun' & Hwf & _).
    rewrite Hun' in Hun. by injection Hun as <-.
  - split; [by eapply WF_Broadcast|].
    rewrite Broadcast_spec in Hb by apply IH. injection Hb as <-.
    by destruct task as [[c|c]|].
  - split; [by eapply WF_Close|].
    unfold Close in Hc. destruct (done b); [done|]. injection Hc as <-.
    by destruct task as [[c|c]|].
  - split; [by eapply WF_run_broadcast_in|done].
  - split; [|done].
    unfold run_done_in in Hrun. destruct (done b) eqn:Hd; [|done].
    destruct (run_done_in_spec b order IH Hd P) as (b'' & Hrun' & Hwf & _).
    unfold run_done_in in Hrun'. rewrite Hd in Hrun'.
    rewrite Hrun' in Hrun. by injection Hrun as <-.
Qed.

Lemma reachable_WF (b : Broker) : reachable b → WF b.
Proof. intros [task Hb]. by destruct (reachable_with_WF task b Hb). Qed.

(** No reachable step of the loop or call of the interface panics, except
    a second [Close]. *)
Lemma reachable_no_panic (b : Broker) :
  reachable b →
  (∀ event, Broadcast event b ≠ Panics)
  ∧ (∀ client, Unsubscribe client b ≠ Panics)
  ∧ Subscribe b ≠ Panics
  ∧ (∀ client, run_unregister client b ≠ Panics)
  ∧ (∀ order, order ≡ₚ (map_to_list (clients b)).*1 →
              run_broadcast_in order b ≠ Panics
              ∧ run_done_in order b ≠ Panics).
Proof.
  intros Hwf%reachable_WF. split_and!.
  - intros event. by rewrite Broadcast_spec by apply Hwf.
  - intros client. unfold Unsubscribe. by destruct (running b).
  - unfold Subscribe. by destruct (running b).
  - intros client.
    destruct (run_unregister_spec b client Hwf) as (b' & -> & _). done.
  - intros order P. split.
    + unfold run_broadcast_in, recv.
      destruct (buf (broadcast b)) as [|event rest] eqn:Hbuf.
      { by rewrite (wf_intake_open b Hwf). }
      destruct (run_broadcast_in_spec b order event rest Hwf P Hbuf)
        as (b' & Hrun & _).
      unfold run_broadcast_in, recv in Hrun. rewrite Hbuf in Hrun.
      by rewrite Hrun.
    + destruct (done b) eqn:Hd.
      * destruct (run_done_in_spec b order Hwf Hd P) as (b' & -> & _). done.
      * unfold run_done_in. by rewrite Hd.
Qed.

End broker_reachable.

(** ** The broker: fan-out, backpressure, unsubscription, shutdown *)
Section broker_properties.
Import events.

(** C1: for a broadcast processed by the event loop, the event is offered
    exactly once to every subscriber queue registered when the loop takes
    the broadcast, whatever their number and the order of the iteration.
    The offer is the non-blocking send on that queue: the queue is left as
    that send leaves it, so a registered queue with room ends with the
    event appended and a full one is left as it was, and the log records
    that one send with its outcome.  The event is taken off the intake
    queue.  A queue that is not registered then is offered nothing and is
    left as it was. *)
Theorem C1_broadcast_offered_once (b : Broker) (order : list chan_id)
    (event : Event) (rest : list Event) :
  WF b →
  order ≡ₚ (map_to_list (clients b)).*1 →
  buf (broadcast b) = event :: rest →
  ∃ b' log,
    run_broadcast_in order b = Returns (b', log)
    ∧ clients b' = clients b
    ∧ buf (broadcast b') = rest
    ∧ (length log = size (clients b))%nat
    ∧ Forall (fun o => what o = event) log
    ∧ (∀ c, is_Some (clients b !! c) → offers_to c log = 1)
    ∧ (∀ c, is_Some (clients b !! c) →
         ∃ ch ch' ok,
           chans b !! c = Some ch
           ∧ try_send ch event = Returns (ch', ok)
           ∧ chans b' !! c = Some ch'
           ∧ mkOffer c event ok ∈ log
           ∧ ((length (buf ch) < cap ch)%nat →
              ok = true ∧ buf ch' = (buf ch ++ [event])%list)
           ∧ ((length (buf ch) = cap ch)%nat → ok = false ∧ ch' = ch))
    ∧ (∀ c, clients b !! c = None →
            offers_to c log = 0 ∧ chans b' !! c = chans b !! c).
Proof.
  intros Hwf P Hbuf.
  destruct (run_broadcast_in_spec b order event rest Hwf P Hbuf)
    as (b' & Hrun & Hcl & Hintake & _ & _ & Hin & Hout).
  destruct (registry_order b order P) as [Hnd Hmem].
  eexists b', _. split; [exact Hrun|]. split_and!.
  - done.
  - done.
  - rewrite length_fmap, P, length_fmap. apply length_map_to_list.
  - apply Forall_fmap, Forall_forall. by intros c _.
  - intros c Hc. rewrite offers_to_fmap by done.
    rewrite decide_True; [done|]. by apply Hmem.
  - intros c [v Hv].
    destruct (wf_registered b Hwf c v Hv) as (ch & Hch & Hop & Hcap & Hlen).
    exists ch, (after_offer event ch), (has_room ch). split_and!.
    + done.
    + by apply try_send_open.
    + rewrite Hin by (by eexists). by rewrite Hch.
    + apply list_elem_of_fmap. exists c. split; [|apply Hmem; by eexists].
      by rewrite Hch.
    + intros Hroom. unfold after_offer, has_room.
      by rewrite bool_decide_eq_true_2 by done.
    + intros Hfull. unfold after_offer, has_room.
      by rewrite bool_decide_eq_false_2 by lia.
  - intros c Hc. split; [|by apply Hout].
    rewrite offers_to_fmap by done.
    rewrite decide_False; [done|]. rewrite Hmem, Hc. by intros [? ?].
Qed.

(** C2: [Broadcast] never blocks its caller and returns no error: it
    returns, putting the event into the intake queue (capacity 10) or, when
    that queue is full, dropping it and leaving the broker as it was.  In
    the fan-out a registered queue (capacity 5) that is full keeps its
    content, the event being dropped for it alone, while every registered
    queue with room receives the event, whatever the state of the others. *)
Theorem C2_backpressure_isolated (b : Broker) (event : Event) :
  WF b →
  (∃ b', Broadcast event b = Returns b'
         ∧ clients b' = clients b ∧ chans b' = chans b
         ∧ cap (broadcast b) = 10
         ∧ ((length (buf (broadcast b)) = 10)%nat → b' = b)
         ∧ ((length (buf (broadcast b)) < 10)%nat →
            buf (broadcast b') = (buf (broadcast b) ++ [event])%list))
  ∧ (∀ order rest,
       order ≡ₚ (map_to_list (clients b)).*1 →
       buf (broadcast b) = event :: rest →
       ∃ b' log,
         run_broadcast_in order b = Returns (b', log)
         ∧ ∀ c, is_Some (clients b !! c) →
             ∃ ch, chans b !! c = Some ch ∧ cap ch = 5
               ∧ ((length (buf ch) = 5)%nat →
                  chans b' !! c = Some ch ∧ mkOffer c event false ∈ log)
               ∧ ((length (buf ch) < 5)%nat →
                  chans b' !! c = Some (mkChan (buf ch ++ [event]) 5 false)
                  ∧ mkOffer c event true ∈ log)).
Proof.
  intros Hwf. split.
  - eexists. split; [apply Broadcast_spec, Hwf|]. simpl.
    pose proof (wf_intake_cap b Hwf) as Hcap.
    pose proof (wf_intake_open b Hwf) as Hop.
    split_and!; try done.
    + intros Hfull. unfold after_offer, has_room.
      rewrite bool_decide_eq_false_2 by lia. by destruct b.
    + intros Hroom. unfold after_offer, has_room.
      rewrite bool_decide_eq_true_2 by lia. done.
  - intros order rest P Hbuf.
    destruct (run_broadcast_in_spec b order event rest Hwf P Hbuf)
      as (b' & Hrun & _ & _ & _ & _ & Hin & _).
    destruct (registry_order b order P) as [_ Hmem].
    eexists b', _. split; [exact Hrun|]. intros c [v Hv].
    destruct (wf_registered b Hwf c v Hv) as (ch & Hch & Hop & Hcap & Hlen).
    exists ch. split_and!; try done.
    + intros Hfull. split.
      * rewrite Hin by (by eexists). rewrite Hch. simpl.
        unfold after_offer, has_room. by rewrite bool_decide_eq_false_2 by lia.
      * apply list_elem_of_fmap. exists c. split; [|apply Hmem; by eexists].
        rewrite Hch. simpl. unfold has_room.
        by rewrite bool_decide_eq_false_2 by lia.
    + intros Hroom. split.
      * rewrite Hin by (by eexists). rewrite Hch. simpl.
        unfold after_offer, has_room.
        rewrite bool_decide_eq_true_2 by lia. by rewrite Hcap.
      * apply list_elem_of_fmap. exists c. split; [|apply Hmem; by eexists].
        rewrite Hch. simpl. unfold has_room.
        by rewrite bool_decide_eq_true_2 by lia.
Qed.

(** C3, as the code has it: once [Close] has been called and the event loop
    has taken the shutdown case, [Broadcast] still returns without blocking
    or panicking; it reaches no subscriber, the registry staying empty and
    every subscriber queue untouched.  [Subscribe] and [Unsubscribe] block,
    nothing receiving on [register] and [unregister] any more, and a second
    [Close] panics, closing a closed channel. *)
Theorem C3_after_Close (b b1 b2 : Broker) (order : list chan_id) :
  WF b →
  Close b = Returns b1 →
  order ≡ₚ (map_to_list (clients b1)).*1 →
  run_done_in order b1 = Returns b2 →
  (∀ event, ∃ b3, Broadcast event b2 = Returns b3
                  ∧ clients b3 = ∅ ∧ chans b3 = chans b2
                  ∧ done b3 = true ∧ running b3 = false)
  ∧ Subscribe b2 = Blocks
  ∧ (∀ client, Unsubscribe client b2 = Blocks)
  ∧ Close b1 = Panics
  ∧ Close b2 = Panics.
Proof.
  intros Hwf Hclose P Hrun.
  assert (WF b1) as Hwf1 by (by eapply WF_Close).
  assert (done b1 = true) as Hd1.
  { unfold Close in Hclose. destruct (done b); [done|]. by injection Hclose as <-. }
  destruct (run_done_in_spec b1 order Hwf1 Hd1 P)
    as (b2' & Hrun' & Hwf2 & Hcl & Hr & Hd & _).
  rewrite Hrun in Hrun'. injection Hrun' as <-.
  split_and!.
  - intros event. eexists. split; [apply Broadcast_spec, Hwf2|]. by simpl.
  - unfold Subscribe. by rewrite Hr.
  - intros client. unfold Unsubscribe. by rewrite Hr.
  - unfold Close. by rewrite Hd1.
  - unfold Close. by rewrite Hd.
Qed.


End broker_properties.

(** ** The broker on a concrete state *)
Section broker_examples.
Import events.

Lemma WF_busy_broker : WF busy_broker.
Proof.
  split; simpl; try done; try lia.
  intros c v Hc.
  destruct (decide (c = 1%positive)) as [->|H1].
  { exists (mkChan [ev; ev; ev; ev; ev] 5 false). rewrite lookup_insert_eq.
    simpl. split_and!; done || lia. }
  rewrite lookup_insert_ne in Hc by done.
  destruct (decide (c = 2%positive)) as [->|H2].
  { exists (make_chan 5). rewrite lookup_insert_ne, lookup_insert_eq by done.
    simpl. split_and!; done || lia. }
  rewrite lookup_insert_ne in Hc by done. by rewrite lookup_empty in Hc.
Defined.

Lemma C1_offered_once_witness :
  ∃ b' log,
    run_broadcast_in (map_to_list (clients busy_broker)).*1 busy_broker
    = Returns (b', log)
    ∧ clients b' = clients busy_broker
    ∧ buf (broadcast b') = []
    ∧ length log = 2%nat
    ∧ offers_to 1%positive log = 1%nat
    ∧ offers_to 2%positive log = 1%nat
    ∧ offers_to 3%positive log = 0%nat
    ∧ mkOffer 1%positive ev false ∈ log
    ∧ chans b' !! 1%positive = Some (mkChan [ev; ev; ev; ev; ev] 5 false)
    ∧ mkOffer 2%positive ev true ∈ log
    ∧ chans b' !! 2%positive = Some (mkChan [ev] 5 false)
    ∧ chans b' !! 3%positive = Some (mkChan [] 5 true).
Proof.
  destruct (C1_broadcast_offered_once busy_broker
              (map_to_list (clients busy_broker)).*1 ev [])
    as (b' & log & Hrun & Hcl & Hintake & Hlen & _ & Hone & Hin & Hout).
  - exact WF_busy_broker.
  - reflexivity.
  - reflexivity.
  - exists b', log. split; [exact Hrun|].
    destruct (Hin 1%positive) as (ch1 & ch1' & ok1 & Hch1 & Hs1 & Hq1 & Hl1 & _);
      [by eexists|].
    vm_compute in Hch1. injection Hch1 as <-.
    vm_compute in Hs1. injection Hs1 as <- <-.
    destruct (Hin 2%positive) as (ch2 & ch2' & ok2 & Hch2 & Hs2 & Hq2 & Hl2 & _);
      [by eexists|].
    vm_compute in Hch2. injection Hch2 as <-.
    vm_compute in Hs2. injection Hs2 as <- <-.
    destruct (Hout 3%positive) as [Hz3 Hq3]; [reflexivity|].
    split_and!.
    + exact Hcl.
    + exact Hintake.
    + exact Hlen.
    + apply Hone. by eexists.
    + apply Hone. by eexists.
    + exact Hz3.
    + exact Hl1.
    + exact Hq1.
    + exact Hl2.
    + exact Hq2.
    + exact Hq3.
Defined.

Lemma C2_backpressure_witness :
  WF busy_broker
  ∧ (∃ b', Broadcast ev busy_broker = Returns b')
  ∧ ∃ b' log,
      run_broadcast busy_broker = Returns (b', log)
      ∧ chans b' !! 1%positive = chans busy_broker !! 1%positive
      ∧ chans b' !! 2%positive = Some (mkChan [ev] 5 false).
Proof.
  pose proof (C2_backpressure_isolated busy_broker ev WF_busy_broker)
    as [(b1 & Hb1 & _) Hfan].
  split; [exact WF_busy_broker|]. split; [by exists b1|].
  destruct (Hfan (map_to_list (clients busy_broker)).*1 [])
    as (b' & log & Hrun & Hq); [reflexivity..|].
  exists b', log. split; [exact Hrun|]. split.
  - destruct (Hq 1%positive) as (ch & Hch & _ & Hfull & _); [by eexists|].
    vm_compute in Hch. injection Hch as <-.
    destruct Hfull as [Hq1 _]; [reflexivity|]. exact Hq1.
  - destruct (Hq 2%positive) as (ch & Hch & _ & _ & Hroom); [by eexists|].
    vm_compute in Hch. injection Hch as <-.
    destruct Hroom as [Hq2 _]; [simpl; lia|]. exact Hq2.
Defined.

(** C3 as the specification words it, every use after [Close] being a
    safe no-op, does not hold of the code: on a fresh broker a second
    [Close] panics, and once the loop has taken the shutdown case
    [Subscribe] and [Unsubscribe] block. *)
Lemma C3_use_after_Close_unsafe :
  ∃ b1 b2,
    Close NewBroker = Returns b1
    ∧ run_done b1 = Returns b2
    ∧ Close b1 = Panics
    ∧ Close b2 = Panics
    ∧ Subscribe b2 = Blocks
    ∧ Unsubscribe 1%positive b2 = Blocks.
Proof. eexists _, _. split_and!; reflexivity. Qed.

Lemma C3_after_Close_witness :
  ∃ b1 b2,
    Close busy_broker = Returns b1
    ∧ run_done b1 = Returns b2
    ∧ (∃ b3, Broadcast ev b2 = Returns b3 ∧ clients b3 = ∅)
    ∧ Subscribe b2 = Blocks
    ∧ Close b2 = Panics.
Proof.
  set (b1 := mkBroker (clients busy_broker) (chans busy_broker)
                      (broadcast busy_broker) true true).
  assert (Close busy_broker = Returns b1) as Hclose by reflexivity.
  destruct (run_done b1) as [b2| |] eqn:Hrun;
    [|vm_compute in Hrun; discriminate..].
  exists b1, b2. split; [exact Hclose|]. split; [exact Hrun|].
  destruct (C3_after_Close busy_broker b1 b2 (map_to_list (clients b1)).*1
              WF_busy_broker Hclose (reflexivity _) Hrun)
    as (Hb & Hs & _ & _ & Hc).
  split_and!; try assumption.
  destruct (Hb ev) as (b3 & Hb3 & Hcl & _). by exists b3.
Defined.



End broker_examples.

(** ** The transport loop after shutdown *)
Section transport.
Import events handlers.

(** On a closed and drained queue the receive is always ready and yields
    the zero event, so while the request context is not cancelled every
    pass of the loop frames an empty event and goes round again. *)
Lemma stream_closed_spins (sched : list (bool * bool)) (ch : chan)
    (w : list string) :
  closed ch = true → buf ch = [] →
  Forall (fun p => p.1 = false) sched →
  stream sched ch w
  = (Streaming, ch, (w ++ replicate (length sched) (frame zero_Event))%list).
Proof.
  intros Hcl Hbuf Hctx. revert w.
  induction Hctx as [|[ctx_done pick_ctx] sched Hp _ IH]; intros w; simpl.
  - by rewrite app_nil_r.
  - simpl in Hp. subst ctx_done. unfold stream_select, recv.
    rewrite Hbuf, Hcl. simpl. rewrite IH, <- app_assoc. done.
Qed.

(** More generally, on a closed queue the loop first frames what is left
    in the buffer and then spins: without cancellation it is never found
    exited or waiting. *)
Lemma stream_closed_never_exits (sched : list (bool * bool)) (ch : chan)
    (w : list string) :
  closed ch = true →
  Forall (fun p => p.1 = false) sched →
  (stream sched ch w).1.1 = Streaming.
Proof.
  intros Hcl Hctx. revert ch w Hcl.
  induction Hctx as [|[ctx_done pick_ctx] sched Hp _ IH]; intros ch w Hcl;
    simpl; [done|].
  simpl in Hp. subst ctx_done. unfold stream_select, recv.
  destruct (buf ch) as [|v rest]; simpl.
  - rewrite Hcl. simpl. by apply IH.
  - by apply IH.
Qed.

(** An open and empty queue, by contrast, makes the loop wait. *)
Lemma stream_open_waits (pick_ctx : bool) (sched : list (bool * bool))
    (ch : chan) (w : list string) :
  closed ch = false → buf ch = [] →
  stream ((false, pick_ctx) :: sched) ch w = (Waiting, ch, w).
Proof.
  intros Hcl Hbuf. simpl. unfold stream_select, recv. by rewrite Hbuf, Hcl.
Qed.

(** The loop leaves only through the cancellation case. *)
Lemma stream_exits_only_on_cancel (sched : list (bool * bool)) (ch ch' : chan)
    (w w' : list string) :
  stream sched ch w = (Exited, ch', w') → Exists (fun p => p.1 = true) sched.
Proof.
  revert ch w. induction sched as [|[ctx_done pick_ctx] sched IH];
    intros ch w; simpl; [done|].
  destruct ctx_done; [intros _; by left|].
  unfold stream_select. destruct (recv ch) as [[[event ok] ch1]|]; simpl.
  - intros Hs. right. by eapply IH.
  - done.
Qed.

(** C4 on the code: a subscriber's queue does observe closure when the
    broker shuts down, but the transport loop reading it does not exit.
    With one subscriber on a fresh broker, registered by the loop, after
    [Close] and the shutdown case of [run], the queue is closed and
    unregistered; the loop, its request context not cancelled, is still
    streaming after any number of passes, having written one empty frame
    per pass. *)
Theorem C4_transport_spins_after_Close :
  ∃ c b0 b1 b2 b3 ch,
    Subscribe NewBroker = Returns (c, b0)
    ∧ run_register c b0 = b1
    ∧ clients b1 !! c = Some true
    ∧ Close b1 = Returns b2
    ∧ run_done b2 = Returns b3
    ∧ clients b3 = ∅ ∧ running b3 = false
    ∧ chans b3 !! c = Some ch ∧ closed ch = true
    ∧ ∀ n pick,
        stream (replicate n (false, pick)) ch []
        = (Streaming, ch, replicate n (frame zero_Event)).
Proof.
  exists 1%positive. eexists _, _, _, _, (mkChan [] 5 true).
  split_and!; try reflexivity.
  intros n pick.
  rewrite (stream_closed_spins _ (mkChan [] 5 true) []); try done.
  - by rewrite length_replicate.
  - apply Forall_forall. by intros p ->%elem_of_replicate_inv.
Qed.

End transport.

(** ** Facts about the poller *)
Section poller_facts.
Import events handlers.

Lemma callBroadcast_spec (event : Event) (w : World) :
  intake_open w →
  callBroadcast event w
  = Returns (tt, mkWorld (sent event (broker w))
                         (trace w ++ [CallBroadcast event])).
Proof.
  intros Hop. unfold callBroadcast, bind, record. simpl.
  by rewrite (Broadcast_spec _ _ Hop).
Qed.

(** What [pollMachineChanges] does: it always returns the map built from
    the fetched machines; it renders only when the detector says so, and
    broadcasts only when the rendering succeeds. *)
Lemma pollMachineChanges_spec (env : Collaborators)
    (machines : list models.Machine) (users : list headscale.User.t)
    (previous : gmap N MachineState.t) (w : World) :
  intake_open w →
  ∃ changed,
    detect.detectMachineChanges (machineStates machines) previous = Some changed
    ∧ pollMachineChanges env machines users previous w
      = Returns
          (machineStates machines,
           after_poll CallDetectMachines "machines-table" machinesTable changed
             (ExecuteTemplate env "machines-table"
                              (mkData (Some machines) users)) w).
Proof.
  intros Hop.
  destruct (detectMachineChanges_spec (machineStates machines) previous)
    as (changed & Hd & _).
  exists changed. split; [done|].
  unfold pollMachineChanges, callDetectMachines, bind, record. simpl.
  rewrite Hd. destruct changed; [|done].
  unfold broadcastMachinesTableUpdate, callExecuteTemplate, bind, record, ret.
  simpl.
  destruct (ExecuteTemplate env "machines-table" (mkData (Some machines) users))
    as [html|].
  - rewrite callBroadcast_spec by done. unfold after_poll. simpl.
    by rewrite <- !app_assoc.
  - unfold after_poll. simpl. by rewrite <- !app_assoc.
Qed.

Lemma pollUserChanges_spec (env : Collaborators)
    (users : list headscale.User.t) (machineCounts : gmap string Z)
    (previous : gmap N UserState.t) (w : World) :
  intake_open w →
  pollUserChanges env users machineCounts previous w
  = Returns
      (userStates users machineCounts,
       after_poll CallDetectUsers "users-table" usersTable
         (detect.detectUserChanges (userStates users machineCounts) previous)
         (ExecuteTemplate env "users-table" (mkData None users)) w).
Proof.
  intros Hop.
  unfold pollUserChanges, callDetectUsers, bind, record, ret. simpl.
  destruct (detect.detectUserChanges (userStates users machineCounts) previous);
    [|done].
  unfold broadcastUsersTableUpdate, callExecuteTemplate, bind, record, ret.
  simpl.
  destruct (ExecuteTemplate env "users-table" (mkData None users)) as [s|].
  - rewrite callBroadcast_spec by done. unfold after_poll. simpl.
    by rewrite <- !app_assoc.
  - unfold after_poll. simpl. by rewrite <- !app_assoc.
Qed.

Lemma WF_sent (event : Event) (b : Broker) : WF b → WF (sent event b).
Proof.
  intros Hwf. apply (WF_Broadcast event b); [done|].
  apply Broadcast_spec, Hwf.
Qed.

Lemma WF_poll_broker (mk : string → Event) (changed : bool)
    (render : option string) (b : Broker) :
  WF b → WF (poll_broker mk changed render b).
Proof.
  intros Hwf. unfold poll_broker.
  destruct changed, render; try done. by apply WF_sent.
Qed.

Lemma clients_poll_broker (mk : string → Event) (changed : bool)
    (render : option string) (b : Broker) :
  clients (poll_broker mk changed render b) = clients b.
Proof. unfold poll_broker. by destruct changed, render. Qed.

(** A tick with at least one client and both fetches successful. *)
Lemma tick_fetched (env : Collaborators) (st : PollerState) (w : World)
    (machines : list models.Machine) (users : list headscale.User.t) :
  WF (broker w) →
  ClientCount (broker w) ≠ 0%Z →
  FetchMachines env = Some machines →
  ListUsers env = Some users →
  ∃ changed,
    detect.detectMachineChanges (machineStates machines) (lastMachineStates st)
    = Some changed
    ∧ tick env st w
      = Returns
          (mkPoller (machineStates machines)
                    (userStates users (countMachinesPerUser machines)),
           after_poll CallDetectUsers "users-table" usersTable
             (detect.detectUserChanges
                (userStates users (countMachinesPerUser machines))
                (lastUserStates st))
             (ExecuteTemplate env "users-table" (mkData None users))
             (after_poll CallDetectMachines "machines-table" machinesTable
                changed
                (ExecuteTemplate env "machines-table"
                                 (mkData (Some machines) users))
                (mkWorld (broker w)
                         (trace w ++ [CallFetchMachines; CallListUsers])))).
Proof.
  intros Hwf Hcount Hm Hu.
  destruct (pollMachineChanges_spec env machines users (lastMachineStates st)
              (mkWorld (broker w) (trace w ++ [CallFetchMachines; CallListUsers])))
    as (changed & Hd & Hpm); [apply Hwf|].
  exists changed. split; [done|].
  unfold tick, bind at 1, readBroker.
  rewrite decide_False by done.
  unfold bind at 1, record. rewrite Hm.
  unfold bind at 1. simpl. rewrite Hu.
  unfold bind at 1. simpl. rewrite <- app_assoc. simpl.
  rewrite Hpm.
  cbv beta iota. unfold bind at 1.
  rewrite pollUserChanges_spec; [done|].
  unfold intake_open, after_poll. simpl. apply WF_poll_broker, Hwf.
Qed.

End poller_facts.

(** ** The poller: quiescence, fetch failure, render failure *)
Section poller_properties.
Import events handlers.

Lemma users_calls_no_machines_event (changed : bool) (render : option string) :
  Forall (fun c => ¬ machines_event c
                   ∧ c ≠ CallExecuteTemplate "machines-table")
         (poll_calls CallDetectUsers "users-table" usersTable changed render).
Proof.
  unfold poll_calls.
  destruct changed, render; rewrite ?Forall_cons; split_and!;
    try apply Forall_nil; simpl; try tauto; discriminate.
Qed.

(** C7: on a tick where [ClientCount] is 0 the poller does nothing: the
    tick returns with the two previous-state maps, the broker and the
    record of calls as they were, so neither fetch was made and neither
    detector was run. *)
Theorem C7_quiescent_tick (env : Collaborators) (st : PollerState) (w : World) :
  ClientCount (broker w) = 0%Z →
  tick env st w = Returns (st, w).
Proof.
  intros Hcount. unfold tick, bind, readBroker. by rewrite decide_True.
Qed.

(** C10: on a tick with a client connected where the machine fetch succeeds
    and [ListUsers] fails, the poller stops after the two fetches: no
    detector is run and nothing is rendered or broadcast for either class,
    and both previous-state maps stay as they were. *)
Theorem C10_user_fetch_failure_skips_both (env : Collaborators)
    (st : PollerState) (w : World) (machines : list models.Machine) :
  ClientCount (broker w) ≠ 0%Z →
  FetchMachines env = Some machines →
  ListUsers env = None →
  tick env st w
  = Returns (st, mkWorld (broker w)
                         (trace w ++ [CallFetchMachines; CallListUsers])).
Proof.
  intros Hcount Hm Hu. unfold tick, bind at 1, readBroker.
  rewrite decide_False by done.
  unfold bind at 1, record. rewrite Hm.
  unfold bind at 1. simpl. rewrite Hu. unfold ret.
  by rewrite <- app_assoc.
Qed.

(** C8: on a tick where a machine change is detected and the rendering of
    the machines table fails, nothing is broadcast for that change, yet the
    previous-state map becomes the map just built.  On the next tick a
    snapshot with the same tracked state is therefore not detected as a
    change (no rendering, no machines event), and a machines event is
    broadcast then only if the snapshot differs again. *)
Theorem C8_render_failure_advances_state (env : Collaborators)
    (st : PollerState) (w : World)
    (machines : list models.Machine) (users : list headscale.User.t) :
  WF (broker w) →
  ClientCount (broker w) ≠ 0%Z →
  FetchMachines env = Some machines →
  ListUsers env = Some users →
  detect.detectMachineChanges (machineStates machines) (lastMachineStates st)
  = Some true →
  ExecuteTemplate env "machines-table" (mkData (Some machines) users) = None →
  ∃ st1 w1 tr1,
    tick env st w = Returns (st1, w1)
    ∧ trace w1 = (trace w ++ tr1)%list
    ∧ CallExecuteTemplate "machines-table" ∈ tr1
    ∧ Forall (fun c => ¬ machines_event c) tr1
    ∧ lastMachineStates st1 = machineStates machines
    ∧ ∀ env2 machines2 users2,
        FetchMachines env2 = Some machines2 →
        ListUsers env2 = Some users2 →
        ∃ st2 w2 tr2,
          tick env2 st1 w1 = Returns (st2, w2)
          ∧ trace w2 = (trace w1 ++ tr2)%list
          ∧ (detect.same_snapshot detect.machine_tracked_eq
               (machineStates machines2) (machineStates machines) →
             (CallExecuteTemplate "machines-table" ∉ tr2)
             ∧ Forall (fun c => ¬ machines_event c) tr2)
          ∧ (Exists machines_event tr2 →
             ¬ detect.same_snapshot detect.machine_tracked_eq
                 (machineStates machines2) (machineStates machines)).
Proof.
  intros Hwf Hcount Hm Hu Hchanged Hrender.
  destruct (tick_fetched env st w machines users Hwf Hcount Hm Hu)
    as (changed & Hd & Htick).
  rewrite Hchanged in Hd. injection Hd as <-. rewrite Hrender in Htick.
  set (cu := detect.detectUserChanges
               (userStates users (countMachinesPerUser machines))
               (lastUserStates st)) in *.
  set (ru := ExecuteTemplate env "users-table" (mkData None users)) in *.
  eexists _, _, _. split; [exact Htick|]. split_and!.
  - unfold after_poll. simpl. rewrite <- !app_assoc. reflexivity.
  - simpl. rewrite !elem_of_cons. auto.
  - simpl. rewrite !Forall_cons. split_and!; try (simpl; tauto).
    eapply Forall_impl; [apply users_calls_no_machines_event|].
    by intros c [? _].
  - done.
  - intros env2 machines2 users2 Hm2 Hu2.
    match type of Htick with _ = Returns (?s, ?x) =>
      set (st1 := s) in *; set (w1 := x) in * end.
    assert (WF (broker w1)) as Hwf1.
    { unfold w1, after_poll. simpl. by apply WF_poll_broker. }
    assert (ClientCount (broker w1) ≠ 0%Z) as Hcount1.
    { unfold ClientCount, w1, after_poll. simpl.
      by rewrite clients_poll_broker. }
    destruct (tick_fetched env2 st1 w1 machines2 users2 Hwf1 Hcount1 Hm2 Hu2)
      as (changed2 & Hd2 & Htick2).
    simpl in Hd2.
    set (cu2 := detect.detectUserChanges
                  (userStates users2 (countMachinesPerUser machines2))
                  (lastUserStates st1)) in *.
    set (ru2 := ExecuteTemplate env2 "users-table" (mkData None users2)) in *.
    set (rm2 := ExecuteTemplate env2 "machines-table"
                  (mkData (Some machines2) users2)) in *.
    eexists _, _, _. split; [exact Htick2|]. split_and!.
    + unfold after_poll at 1 2. simpl. rewrite <- !app_assoc. reflexivity.
    + intros Hsame. apply detectMachineChanges_false in Hsame.
      rewrite Hsame in Hd2. injection Hd2 as <-. simpl. split.
      * rewrite !elem_of_cons.
        intros [[=]|[[=]|[[=]|Hin]]].
        pose proof (users_calls_no_machines_event cu2 ru2) as Hall.
        rewrite Forall_forall in Hall. by destruct (Hall _ Hin).
      * rewrite !Forall_cons. split_and!; try (simpl; tauto).
        eapply Forall_impl; [apply users_calls_no_machines_event|].
        by intros c [? _].
    + intros Hex Hsame. apply detectMachineChanges_false in Hsame.
      rewrite Hsame in Hd2. injection Hd2 as <-. simpl in Hex.
      rewrite !Exists_cons in Hex.
      destruct Hex as [[]|[[]|[[]|Hex]]].
      apply Exists_exists in Hex as (c & Hin & Hc).
      pose proof (users_calls_no_machines_event cu2 ru2) as Hall.
      rewrite Forall_forall in Hall. by destruct (Hall _ Hin).
Qed.

End poller_properties.

(** ** The poller on concrete ticks *)
Section poller_examples.
Import events handlers.

Lemma C7_quiescent_witness :
  ClientCount NewBroker = 0%Z
  ∧ tick env_render_fails first_tick (mkWorld NewBroker [])
    = Returns (first_tick, mkWorld NewBroker []).
Proof.
  split; [reflexivity|].
  apply (C7_quiescent_tick env_render_fails first_tick (mkWorld NewBroker [])).
  reflexivity.
Defined.

Lemma C10_user_fetch_failure_witness :
  tick env_users_fail first_tick (mkWorld busy_broker [])
  = Returns (first_tick,
             mkWorld busy_broker [CallFetchMachines; CallListUsers]).
Proof.
  apply (C10_user_fetch_failure_skips_both env_users_fail first_tick
           (mkWorld busy_broker []) [machine_a]).
  - vm_compute. discriminate.
  - reflexivity.
  - reflexivity.
Defined.

Lemma C8_render_failure_witness :
  ∃ st1 w1,
    tick env_render_fails first_tick (mkWorld busy_broker [])
    = Returns (st1, w1)
    ∧ CallExecuteTemplate "machines-table" ∈ trace w1
    ∧ Forall (fun c => ¬ machines_event c) (trace w1)
    ∧ lastMachineStates st1 = machineStates [machine_a]
    ∧ ∃ st2 w2 tr2,
        tick env_render_fails st1 w1 = Returns (st2, w2)
        ∧ trace w2 = (trace w1 ++ tr2)%list
        ∧ (CallExecuteTemplate "machines-table" ∉ tr2).
Proof.
  destruct (C8_render_failure_advances_state env_render_fails first_tick
              (mkWorld busy_broker []) [machine_a] [alice])
    as (st1 & w1 & tr1 & Htick & Htr & Hin & Hall & Hst & Hnext).
  - exact WF_busy_broker.
  - vm_compute. discriminate.
  - reflexivity.
  - reflexivity.
  - vm_compute. reflexivity.
  - reflexivity.
  - exists st1, w1. simpl in Htr. rewrite Htr. split_and!; try done.
    destruct (Hnext env_render_fails [machine_a] [alice] eq_refl eq_refl)
      as (st2 & w2 & tr2 & Htick2 & Htr2 & Hsame & _).
    exists st2, w2, tr2. rewrite <- Htr. split_and!; try done.
    apply Hsame. apply same_snapshot_refl. intros v. by repeat split.
Defined.

End poller_examples.

(** * Further properties of the code *)

(** ** internal/sets: [EqualsSlice] and [Equals] *)
Section set_slice_facts.
Context {T : Type} {T_eq : EqDecision T} {T_cnt : Countable T}.
Import Sets SetsSlice.

Lemma FromSlice_list_to_set (l : list T) : FromSlice l = list_to_set l.
Proof.
  apply set_eq. intros x. by rewrite elem_of_FromSlice, elem_of_list_to_set.
Qed.

Lemma size_list_to_set_le (l : list T) :
  (size (list_to_set l : gset T) ≤ length l)%nat.
Proof.
  induction l as [|x l IH].
  - rewrite list_to_set_nil, size_empty. simpl. lia.
  - rewrite list_to_set_cons, size_union_alt, size_singleton.
    assert (size (list_to_set l ∖ {[x]} : gset T) ≤ size (list_to_set l : gset T))%nat
      by (apply subseteq_size, subseteq_difference_l; reflexivity).
    simpl. lia.
Qed.

Lemma size_list_to_set_NoDup (l : list T) :
  size (list_to_set l : gset T) = length l ↔ NoDup l.
Proof.
  split; [|apply size_list_to_set].
  induction l as [|x l IH]; intros Hsz; [constructor|].
  rewrite list_to_set_cons in Hsz. simpl in Hsz.
  destruct (decide (x ∈ l)) as [Hin|Hnin].
  - exfalso. pose proof (size_list_to_set_le l) as Hle.
    assert ({[x]} ∪ list_to_set l = (list_to_set l : gset T)) as Heq.
    { apply set_eq. intros y.
      rewrite elem_of_union, elem_of_singleton, elem_of_list_to_set.
      split; [intros [->|?]; done|by right]. }
    rewrite Heq in Hsz. lia.
  - constructor; [done|]. apply IH.
    rewrite size_union in Hsz.
    + rewrite size_singleton in Hsz. lia.
    + intros y. rewrite elem_of_singleton, elem_of_list_to_set.
      by intros ->.
Qed.

Lemma EqualsSlice_true (s : gset T) (l : list T) :
  EqualsSlice s l = true ↔ length l = size s ∧ ∀ x, x ∈ l → x ∈ s.
Proof.
  unfold EqualsSlice, Len. destruct (decide (length l ≠ size s)) as [Hne|Heq].
  - split; [done|]. by intros [? _].
  - apply dec_stable in Heq. rewrite all_in_true. tauto.
Qed.

(** X1: on a slice without repetition [EqualsSlice] decides whether the set
    holds exactly the members of the slice. *)
Theorem X1_EqualsSlice_NoDup (s : gset T) (l : list T) :
  NoDup l →
  EqualsSlice s l = true ↔ s = FromSlice l.
Proof.
  intros Hnd. rewrite EqualsSlice_true, FromSlice_list_to_set. split.
  - intros [Hlen Hsub]. symmetry. apply set_subseteq_size_eq.
    + intros x. rewrite elem_of_list_to_set. apply Hsub.
    + rewrite size_list_to_set by done. lia.
  - intros ->. split.
    + by rewrite size_list_to_set.
    + intros x. by rewrite elem_of_list_to_set.
Qed.

(** X2: with repetitions [EqualsSlice] is not set equality: a set built
    from a slice passes [EqualsSlice] against that very slice exactly when
    the slice has no repeated item; and a slice that repeats an item of the
    set as often as the set is large passes without naming every member. *)
Theorem X2_EqualsSlice_repetitions :
  (∀ l : list T, EqualsSlice (FromSlice l) l = true ↔ NoDup l)
  ∧ (∀ (s : gset T) (x : T),
       x ∈ s → EqualsSlice s (replicate (size s) x) = true).
Proof.
  split.
  - intros l. rewrite EqualsSlice_true, FromSlice_list_to_set.
    rewrite <- size_list_to_set_NoDup. split.
    + by intros [-> _].
    + intros Hsz. split; [done|]. intros x. by rewrite elem_of_list_to_set.
  - intros s x Hx. apply EqualsSlice_true. split.
    + by rewrite length_replicate.
    + by intros y [-> _]%elem_of_replicate.
Qed.

(** X3: [Equals], although it ranges over its argument only, is symmetric
    and transitive: with reflexivity, an equivalence on sets. *)
Theorem X3_Equals_equivalence (s1 s2 s3 : gset T) :
  Equals s1 s2 = Equals s2 s1
  ∧ (Equals s1 s2 = true → Equals s2 s3 = true → Equals s1 s3 = true).
Proof.
  split.
  - destruct (Equals s1 s2) eqn:H12, (Equals s2 s1) eqn:H21; try done.
    + apply Equals_true in H12. apply Equals_false in H21. congruence.
    + apply Equals_false in H12. apply Equals_true in H21. congruence.
  - rewrite !Equals_true. congruence.
Qed.

End set_slice_facts.

(** ** internal/models: routes and exit nodes *)
Section route_facts.
Import models routes.

Lemma elem_of_ApprovedSubnets (m : Machine) (r : string) :
  r ∈ ApprovedSubnets m
  ↔ ∃ n, Node m = Some n ∧ r ∈ headscale.Node.ApprovedRoutes n
         ∧ is_exit_route r = false.
Proof.
  unfold ApprovedSubnets. destruct (Node m) as [n|].
  - rewrite list_elem_of_In, filter_In, <- list_elem_of_In, negb_true_iff.
    split; [intros [? ?]; by exists n|intros (n' & [= <-] & ? & ?); done].
  - rewrite elem_of_nil. split; [done|]. by intros (n & [=] & _).
Qed.

Lemma elem_of_AdvertisedSubnets (m : Machine) (r : string) :
  r ∈ AdvertisedSubnets m
  ↔ ∃ n, Node m = Some n ∧ r ∈ headscale.Node.AvailableRoutes n
         ∧ (r ∉ headscale.Node.ApprovedRoutes n)
         ∧ is_exit_route r = false.
Proof.
  unfold AdvertisedSubnets. destruct (Node m) as [n|].
  - rewrite list_elem_of_In, filter_In, <- list_elem_of_In, andb_true_iff,
      !negb_true_iff, bool_decide_eq_false, elem_of_list_to_set.
    split; [intros (? & ? & ?); by exists n
           |intros (n' & [= <-] & ? & ? & ?); done].
  - rewrite elem_of_nil. split; [done|]. by intros (n & [=] & _).
Qed.

(** X4: the two route lists of a machine partition its non-exit routes: no
    route is listed both as approved and as awaiting approval, neither list
    holds an exit route, and every available route that is no exit route is
    in one of the two. *)
Theorem X4_subnet_routes_partition (m : Machine) (r : string) :
  ¬ (r ∈ ApprovedSubnets m ∧ r ∈ AdvertisedSubnets m)
  ∧ (r ∈ ApprovedSubnets m ∨ r ∈ AdvertisedSubnets m →
     is_exit_route r = false)
  ∧ (∀ n, Node m = Some n → r ∈ headscale.Node.AvailableRoutes n →
          is_exit_route r = false →
          r ∈ ApprovedSubnets m ∨ r ∈ AdvertisedSubnets m).
Proof.
  split; [|split].
  - rewrite elem_of_ApprovedSubnets, elem_of_AdvertisedSubnets.
    intros [(n & Hn & Hin & _) (n' & Hn' & _ & Hnin & _)].
    rewrite Hn in Hn'. injection Hn' as <-. done.
  - rewrite elem_of_ApprovedSubnets, elem_of_AdvertisedSubnets.
    intros [(n & _ & _ & Hx)|(n & _ & _ & _ & Hx)]; done.
  - intros n Hn Hav Hx.
    rewrite elem_of_ApprovedSubnets, elem_of_AdvertisedSubnets.
    destruct (decide (r ∈ headscale.Node.ApprovedRoutes n)).
    + left. by exists n.
    + right. by exists n.
Qed.

Lemma existsb_elem_of {A : Type} (f : A → bool) (l : list A) :
  existsb f l = true ↔ ∃ x, x ∈ l ∧ f x = true.
Proof.
  rewrite existsb_exists. split; intros (x & Hx & Hf); exists x;
    by rewrite ?list_elem_of_In in *.
Qed.

Lemma HasExitNode_advertises (m : Machine) :
  HasExitNode m = true
  ↔ ∃ n r, Node m = Some n ∧ r ∈ headscale.Node.AvailableRoutes n
           ∧ is_exit_route r = true.
Proof.
  unfold HasExitNode, ExitNodeApproved, ExitNodeAdvertised.
  destruct (Node m) as [n|]; [|split; [done|by intros (n & r & [=] & _)]].
  rewrite orb_true_iff. split.
  - intros [Happ|Hadv].
    + destruct (existsb is_exit_route (headscale.Node.ApprovedRoutes n));
        [|done]. simpl in Happ.
      apply existsb_elem_of in Happ as (r & Hr & Hx). by exists n, r.
    + apply existsb_elem_of in Hadv as (r & Hr & Hx).
      apply andb_true_iff in Hx as [Hx _]. by exists n, r.
  - intros (n' & r & [= <-] & Hr & Hx).
    destruct (decide (r ∈ headscale.Node.ApprovedRoutes n)) as [Hin|Hnin].
    + left.
      assert (existsb is_exit_route (headscale.Node.ApprovedRoutes n) = true)
        as -> by (apply existsb_elem_of; eauto).
      simpl. apply existsb_elem_of. eauto.
    + right. apply existsb_elem_of. exists r. split; [done|].
      rewrite Hx. simpl. apply negb_true_iff, bool_decide_eq_false.
      by rewrite elem_of_list_to_set.
Qed.

(** X5: a machine counts as an exit node, [HasExitNode] and a non-empty
    [ExitNodeStatus], exactly when it currently advertises an exit route;
    an approval without advertisement does not count.  The status is
    "Allowed", "Awaiting approval" or empty, and "Allowed" exactly when
    [ExitNodeApproved] holds. *)
Theorem X5_exit_node_status (m : Machine) :
  (HasExitNode m = true
   ↔ ∃ n r, Node m = Some n ∧ r ∈ headscale.Node.AvailableRoutes n
            ∧ is_exit_route r = true)
  ∧ (ExitNodeStatus m = "" ↔ HasExitNode m = false)
  ∧ (ExitNodeStatus m = "Allowed" ↔ ExitNodeApproved m = true)
  ∧ (ExitNodeStatus m = "Allowed" ∨ ExitNodeStatus m = "Awaiting approval"
     ∨ ExitNodeStatus m = "").
Proof.
  split; [apply HasExitNode_advertises|].
  unfold ExitNodeStatus, HasExitNode.
  destruct (ExitNodeApproved m), (ExitNodeAdvertised m); simpl;
    split_and!; try (split; done); auto.
Qed.

(** X6: [HasSubnetRoutes] holds exactly when some route that is no exit
    route is approved or available. *)
Theorem X6_HasSubnetRoutes (m : Machine) :
  HasSubnetRoutes m = true
  ↔ ∃ n r, Node m = Some n ∧ is_exit_route r = false
           ∧ (r ∈ headscale.Node.ApprovedRoutes n
              ∨ r ∈ headscale.Node.AvailableRoutes n).
Proof.
  unfold HasSubnetRoutes.
  rewrite orb_true_iff, !bool_decide_eq_true. split.
  - intros [Hl|Hl].
    + destruct (ApprovedSubnets m) as [|r l] eqn:Hs; [simpl in Hl; lia|].
      assert (r ∈ ApprovedSubnets m) as Hr by (rewrite Hs; left).
      apply elem_of_ApprovedSubnets in Hr as (n & Hn & Hr & Hx).
      exists n, r. auto.
    + destruct (AdvertisedSubnets m) as [|r l] eqn:Hs; [simpl in Hl; lia|].
      assert (r ∈ AdvertisedSubnets m) as Hr by (rewrite Hs; left).
      apply elem_of_AdvertisedSubnets in Hr as (n & Hn & Hr & _ & Hx).
      exists n, r. auto.
  - intros (n & r & Hn & Hx & Hr).
    assert (r ∈ ApprovedSubnets m ∨ r ∈ AdvertisedSubnets m) as [Hin|Hin].
    { destruct (decide (r ∈ headscale.Node.ApprovedRoutes n)) as [Ha|Hna].
      - left. apply elem_of_ApprovedSubnets. by exists n.
      - right. apply elem_of_AdvertisedSubnets. exists n.
        destruct Hr; done. }
    + left. destruct (ApprovedSubnets m); [inversion Hin|simpl; lia].
    + right. destruct (AdvertisedSubnets m); [inversion Hin|simpl; lia].
Qed.

End route_facts.

(** ** The maps built by the poller and by the users page *)
Section snapshot_facts.
Import detect events handlers users_page.

Lemma foldl_insert_lookup {K : Type} {K_eq : EqDecision K}
    {K_cnt : Countable K} {V A : Type} (key : A → K) (val : A → V)
    (l : list A) (acc : gmap K V) (k : K) :
  foldl (fun m a => <[key a := val a]> m) acc l !! k
  = match last (filter (fun a => key a = k) l) with
    | Some a => Some (val a)
    | None => acc !! k
    end.
Proof.
  revert acc. induction l as [|a l IH]; intros acc; [done|].
  simpl. rewrite IH, filter_cons.
  destruct (decide (key a = k)) as [<-|Hne].
  - rewrite last_cons.
    destruct (last (filter (λ a0, key a0 = key a) l)); [done|].
    apply lookup_insert_eq.
  - destruct (last (filter (λ a0, key a0 = k) l)); [done|].
    by apply lookup_insert_ne.
Qed.

Lemma last_filter_Some {A : Type} (P : A → Prop) `{∀ a, Decision (P a)}
    (l : list A) :
  is_Some (last (filter P l)) ↔ ∃ a, a ∈ l ∧ P a.
Proof.
  split.
  - intros [a Ha]. apply last_Some in Ha as [l' Hl'].
    assert (a ∈ filter P l) as Hin.
    { rewrite Hl'. apply elem_of_app. right. by left. }
    apply list_elem_of_filter in Hin as [? ?]. eauto.
  - intros (a & Ha & HP).
    assert (a ∈ filter P l) as Hin by (by apply list_elem_of_filter).
    destruct (filter P l) as [|x l'] eqn:Hf; [inversion Hin|].
    rewrite last_cons. destruct (last l'); by eexists.
Qed.

(** X7: the map [pollMachineChanges] builds holds, under each machine ID
    that occurs, the projection of the last fetched machine with that ID;
    the [ID] field of an entry is its key, and its [ExitNodeEnabled] field
    is false whatever the routes of the machine. *)
Theorem X7_machineStates_lookup (machines : list models.Machine) (id : N) :
  machineStates machines !! id
  = state_of_machine <$> last (filter (fun m => models.ID m = id) machines)
  ∧ (is_Some (machineStates machines !! id)
     ↔ ∃ m, m ∈ machines ∧ models.ID m = id)
  ∧ (∀ st, machineStates machines !! id = Some st →
           MachineState.ID st = id ∧ MachineState.ExitNodeEnabled st = false).
Proof.
  assert (machineStates machines !! id
          = state_of_machine
              <$> last (filter (fun m => models.ID m = id) machines)) as Hl.
  { unfold machineStates.
    rewrite (foldl_insert_lookup models.ID state_of_machine).
    by destruct (last _). }
  split; [done|]. split.
  - rewrite Hl, fmap_is_Some. apply last_filter_Some.
  - intros st Hst. rewrite Hl in Hst.
    destruct (last _) as [m|] eqn:Hlast; [|done].
    injection Hst as <-. simpl. split.
    + apply last_Some in Hlast as [l' Hl'].
      assert (m ∈ filter (λ m, models.ID m = id) machines) as Hin.
      { rewrite Hl'. apply elem_of_app. right. by left. }
      by apply list_elem_of_filter in Hin as [? _].
    + apply ExitNodeStatus_never_Approved.
Qed.

Lemma machineStates_ext_exit (ms1 ms2 : list models.Machine) :
  Forall2 same_but_exit_routes ms1 ms2 →
  machineStates ms1 = machineStates ms2.
Proof.
  unfold machineStates. generalize (∅ : gmap N MachineState.t) as acc.
  intros acc Hall. revert acc.
  induction Hall as [|m1 m2 ms1 ms2 (Hid & Hon & Hr & Ht) _ IH];
    intros acc; simpl; [done|].
  rewrite Hid, Hon, (FromSlice_ext _ _ Hr), (FromSlice_ext _ _ Ht),
    !ExitNodeStatus_never_Approved.
  apply IH.
Qed.

(** X8: the poller does not see exit-node changes.  Two fetches that differ
    only in the exit routes of the machines, approved or advertised, give
    equal maps, so [detectMachineChanges] reports no change. *)
Theorem X8_exit_routes_not_detected (ms1 ms2 : list models.Machine) :
  Forall2 same_but_exit_routes ms1 ms2 →
  detectMachineChanges (machineStates ms1) (machineStates ms2) = Some false.
Proof.
  intros Hsame. rewrite (machineStates_ext_exit ms1 ms2 Hsame).
  apply detectMachineChanges_false, same_snapshot_refl.
  intros v. by repeat split.
Qed.

Lemma int_wrap_small (z : Z) :
  (- 2 ^ 63 ≤ z < 2 ^ 63)%Z → int_wrap z = z.
Proof. intros Hz. unfold int_wrap. rewrite Z.mod_small; lia. Qed.

Lemma machines_of_snoc (name : string) (l : list models.Machine)
    (m : models.Machine) :
  machines_of name (l ++ [m])
  = if decide (models.User m = name)
    then (machines_of name l ++ [m])%list else machines_of name l.
Proof.
  unfold machines_of. rewrite filter_app, filter_cons, filter_nil.
  destruct (decide (models.User m = name)); [done|by rewrite app_nil_r].
Qed.

Lemma machines_of_length (name : string) (l : list models.Machine) :
  (length (machines_of name l) ≤ length l)%nat.
Proof. apply length_filter. Qed.

Lemma countMachinesPerUser_lookup (machines : list models.Machine)
    (name : string) :
  (Z.of_nat (length machines) < 2 ^ 63)%Z →
  countMachinesPerUser machines !! name
  = match machines_of name machines with
    | [] => None
    | owned => Some (Z.of_nat (length owned))
    end.
Proof.
  induction machines as [|m l IH] using rev_ind; intros Hlen; [done|].
  rewrite length_app in Hlen. simpl in Hlen.
  unfold countMachinesPerUser in *. rewrite foldl_app. simpl.
  rewrite machines_of_snoc.
  pose proof (machines_of_length (models.User m) l) as Hle.
  destruct (decide (models.User m = name)) as [<-|Hne].
  - rewrite lookup_insert_eq, IH by lia.
    destruct (machines_of (models.User m) l) as [|x owned] eqn:Ho; simpl.
    + by rewrite int_wrap_small by lia.
    + rewrite int_wrap_small by (simpl in Hle; lia).
      f_equal. rewrite length_app. simpl. lia.
  - rewrite lookup_insert_ne by done. apply IH. lia.
Qed.

Lemma countMachinesPerUser_default (machines : list models.Machine)
    (name : string) :
  (Z.of_nat (length machines) < 2 ^ 63)%Z →
  default 0%Z (countMachinesPerUser machines !! name)
  = Z.of_nat (length (machines_of name machines)).
Proof.
  intros Hlen. rewrite (countMachinesPerUser_lookup _ _ Hlen).
  by destruct (machines_of name machines).
Qed.

(** X9: [countMachinesPerUser], on fewer than 2^63 machines, counts under
    each name the machines whose [User()] is that name, and has no entry
    for a name that owns no machine. *)
Theorem X9_countMachinesPerUser (machines : list models.Machine)
    (name : string) :
  (Z.of_nat (length machines) < 2 ^ 63)%Z →
  default 0%Z (countMachinesPerUser machines !! name)
  = Z.of_nat (length (machines_of name machines))
  ∧ (countMachinesPerUser machines !! name = None
     ↔ ∀ m, m ∈ machines → models.User m ≠ name).
Proof.
  intros Hlen. rewrite (countMachinesPerUser_lookup _ _ Hlen).
  destruct (machines_of name machines) as [|x owned] eqn:Ho.
  - split; [done|]. split; [|done]. intros _ m Hm Hu.
    assert (m ∈ machines_of name machines) as Hin
      by (by apply list_elem_of_filter).
    rewrite Ho in Hin. inversion Hin.
  - split; [done|]. split; [done|]. intros Hnone. exfalso.
    assert (x ∈ machines_of name machines) as Hin by (rewrite Ho; left).
    apply list_elem_of_filter in Hin as [Hu Hx]. by apply (Hnone x).
Qed.

Lemma machinesByUser_lookup (machines : list models.Machine) (name : string) :
  default [] (machinesByUser machines !! name) = machines_of name machines.
Proof.
  induction machines as [|m l IH] using rev_ind; [done|].
  unfold machinesByUser in *. rewrite foldl_app. simpl.
  rewrite machines_of_snoc.
  destruct (decide (models.User m = name)) as [<-|Hne].
  - rewrite lookup_insert_eq. simpl. by rewrite IH.
  - by rewrite lookup_insert_ne.
Qed.

(** X10: the users page has one row per user, in the order of [ListUsers];
    the machine count of a row is the number of machines whose [User()] is
    the user's name, the count the poller keeps for that name; and the row
    is marked connected exactly when one of these machines is online. *)
Theorem X10_userRows (users : list headscale.User.t)
    (machines : list models.Machine) :
  HeadscaleUser <$> userRows users machines = users
  ∧ ∀ row, row ∈ userRows users machines →
      MachineCount row
      = Z.of_nat (length (machines_of
                            (headscale.User.Name (HeadscaleUser row)) machines))
      ∧ ((Z.of_nat (length machines) < 2 ^ 63)%Z →
         MachineCount row
         = default 0%Z (countMachinesPerUser machines
                          !! headscale.User.Name (HeadscaleUser row)))
      ∧ (HasConnectedMachine row = true
         ↔ ∃ m, m ∈ machines
                ∧ models.User m = headscale.User.Name (HeadscaleUser row)
                ∧ models.Online m = true).
Proof.
  unfold userRows. split.
  - rewrite <- list_fmap_compose. apply list_fmap_id.
  - intros row (u & -> & Hu)%list_elem_of_fmap. simpl.
    rewrite machinesByUser_lookup. split_and!.
    + done.
    + intros Hlen. symmetry. by apply countMachinesPerUser_default.
    + rewrite existsb_elem_of. split.
      * intros (m & Hm & Hon). apply list_elem_of_filter in Hm as [? ?].
        eauto.
      * intros (m & Hm & Hus & Hon). exists m. split; [|done].
        by apply list_elem_of_filter.
Qed.

(** X11: the user map the poller builds from the users and the machines of
    one tick, on fewer than 2^63 machines: an entry under [id] comes from a
    fetched user with that ID, carries its name, and its [MachineCount] is
    the number of fetched machines whose [User()] is that name. *)
Theorem X11_userStates_counts (users : list headscale.User.t)
    (machines : list models.Machine) (id : N) (st : UserState.t) :
  (Z.of_nat (length machines) < 2 ^ 63)%Z →
  userStates users (countMachinesPerUser machines) !! id = Some st →
  ∃ u, u ∈ users ∧ headscale.User.Id u = id
       ∧ UserState.ID st = id
       ∧ UserState.Name st = headscale.User.Name u
       ∧ UserState.MachineCount st
         = Z.of_nat (length (machines_of (headscale.User.Name u) machines)).
Proof.
  intros Hlen Hst. unfold userStates in Hst.
  rewrite (foldl_insert_lookup headscale.User.Id
             (fun user => UserState.mk (headscale.User.Id user)
                            (headscale.User.Name user)
                            (default 0%Z (countMachinesPerUser machines
                                            !! headscale.User.Name user))))
    in Hst.
  destruct (last _) as [u|] eqn:Hlast; [|done].
  injection Hst as <-.
  apply last_Some in Hlast as [l' Hl'].
  assert (u ∈ filter (λ a, headscale.User.Id a = id) users) as Hin.
  { rewrite Hl'. apply elem_of_app. right. by left. }
  apply list_elem_of_filter in Hin as [Hid Hu].
  exists u. simpl. split_and!; try done.
  by apply countMachinesPerUser_default.
Qed.

End snapshot_facts.

(** ** The poller tick as a whole *)
Section tick_facts.
Import detect events handlers.

Lemma tick_quiescent (env : Collaborators) (st : PollerState) (w : World) :
  ClientCount (broker w) = 0%Z → tick env st w = Returns (st, w).
Proof.
  intros Hcount. unfold tick, bind, readBroker. by rewrite decide_True.
Qed.

Lemma tick_machines_fetch_fails (env : Collaborators) (st : PollerState)
    (w : World) :
  ClientCount (broker w) ≠ 0%Z →
  FetchMachines env = None →
  tick env st w
  = Returns (st, mkWorld (broker w) (trace w ++ [CallFetchMachines])).
Proof.
  intros Hcount Hm. unfold tick, bind at 1, readBroker.
  rewrite decide_False by done.
  unfold bind at 1, record. by rewrite Hm.
Qed.

Lemma tick_users_fetch_fails (env : Collaborators) (st : PollerState)
    (w : World) (machines : list models.Machine) :
  ClientCount (broker w) ≠ 0%Z →
  FetchMachines env = Some machines →
  ListUsers env = None →
  tick env st w
  = Returns (st, mkWorld (broker w)
                         (trace w ++ [CallFetchMachines; CallListUsers])).
Proof.
  intros Hcount Hm Hu. unfold tick, bind at 1, readBroker.
  rewrite decide_False by done.
  unfold bind at 1, record. rewrite Hm.
  unfold bind at 1. simpl. rewrite Hu. unfold ret.
  by rewrite <- app_assoc.
Qed.

Lemma chans_poll_broker (mk : string → Event) (changed : bool)
    (render : option string) (b : Broker) :
  chans (poll_broker mk changed render b) = chans b.
Proof. unfold poll_broker. by destruct changed, render. Qed.

(** X12: a tick on a well-formed broker always returns; it never blocks or
    panics.  It leaves the registry and every subscriber queue alone and
    hands the broker at most one event per class, the machines event before
    the users event; the previous-state maps are either both kept or both
    replaced. *)
Theorem X12_tick_safe (env : Collaborators) (st : PollerState) (w : World) :
  WF (broker w) →
  ∃ st' w' tr,
    tick env st w = Returns (st', w')
    ∧ trace w' = (trace w ++ tr)%list
    ∧ WF (broker w')
    ∧ clients (broker w') = clients (broker w)
    ∧ chans (broker w') = chans (broker w)
    ∧ (broadcasts tr = []
       ∨ (∃ h, broadcasts tr = [machinesTable h])
       ∨ (∃ s, broadcasts tr = [usersTable s])
       ∨ (∃ h s, broadcasts tr = [machinesTable h; usersTable s]))
    ∧ (st' = st
       ∨ ∃ machines users,
           FetchMachines env = Some machines ∧ ListUsers env = Some users
           ∧ st' = mkPoller (machineStates machines)
                     (userStates users (countMachinesPerUser machines))).
Proof.
  intros Hwf.
  destruct (decide (ClientCount (broker w) = 0%Z)) as [Hz|Hnz].
  { exists st, w, []. rewrite tick_quiescent by done.
    rewrite app_nil_r. split_and!; auto. }
  destruct (FetchMachines env) as [machines|] eqn:Hm; cycle 1.
  { eexists _, _, _. rewrite tick_machines_fetch_fails by done.
    split_and!; try done; auto. }
  destruct (ListUsers env) as [users|] eqn:Hu; cycle 1.
  { eexists _, _, _. rewrite (tick_users_fetch_fails _ _ _ machines) by done.
    split_and!; try done; auto. }
  destruct (tick_fetched env st w machines users Hwf Hnz Hm Hu)
    as (changed & _ & ->).
  eexists _, _, _. split; [done|]. unfold after_poll. simpl. split_and!.
  - rewrite <- !app_assoc. reflexivity.
  - by do 2 apply WF_poll_broker.
  - by rewrite !clients_poll_broker.
  - by rewrite !chans_poll_broker.
  - unfold poll_calls.
    destruct changed,
      (ExecuteTemplate env "machines-table" (mkData (Some machines) users)),
      (detectUserChanges _ _),
      (ExecuteTemplate env "users-table" (mkData None users));
      simpl; eauto 8.
  - right. by exists machines, users.
Qed.

(** X13: a fleet that does not change generates no traffic.  When two
    successive ticks fetch the same machines and users, the second one runs
    the two detectors and nothing else: nothing is rendered or broadcast,
    whatever happened on the first, and the poller state stays the same. *)
Theorem X13_steady_state (env1 env2 : Collaborators) (st : PollerState)
    (w : World) (machines : list models.Machine)
    (users : list headscale.User.t) :
  WF (broker w) →
  ClientCount (broker w) ≠ 0%Z →
  FetchMachines env1 = Some machines → ListUsers env1 = Some users →
  FetchMachines env2 = Some machines → ListUsers env2 = Some users →
  ∃ st1 w1,
    tick env1 st w = Returns (st1, w1)
    ∧ tick env2 st1 w1
      = Returns (st1, mkWorld (broker w1)
                              (trace w1 ++ [CallFetchMachines; CallListUsers;
                                            CallDetectMachines;
                                            CallDetectUsers])).
Proof.
  intros Hwf Hnz Hm1 Hu1 Hm2 Hu2.
  destruct (tick_fetched env1 st w machines users Hwf Hnz Hm1 Hu1)
    as (changed & _ & Htick).
  eexists _, _. split; [exact Htick|].
  match type of Htick with _ = Returns (?s, ?x) =>
    set (st1 := s) in *; set (w1 := x) in * end.
  assert (WF (broker w1)) as Hwf1.
  { unfold w1, after_poll. simpl. by do 2 apply WF_poll_broker. }
  assert (ClientCount (broker w1) ≠ 0%Z) as Hnz1.
  { unfold ClientCount, w1, after_poll. simpl.
    by rewrite !clients_poll_broker. }
  destruct (tick_fetched env2 st1 w1 machines users Hwf1 Hnz1 Hm2 Hu2)
    as (changed2 & Hd2 & ->).
  simpl in Hd2.
  assert (detectMachineChanges (machineStates machines)
                               (machineStates machines) = Some false) as Hf.
  { apply detectMachineChanges_false, same_snapshot_refl.
    intros v. by repeat split. }
  rewrite Hf in Hd2. injection Hd2 as <-.
  assert (detectUserChanges
            (userStates users (countMachinesPerUser machines))
            (lastUserStates st1) = false) as ->.
  { apply detectUserChanges_false, same_snapshot_refl. intros v. by split. }
  unfold after_poll. simpl. by rewrite <- !app_assoc.
Qed.

Lemma machineStates_nonempty (m : models.Machine)
    (machines : list models.Machine) :
  m ∈ machines → is_Some (machineStates machines !! models.ID m).
Proof.
  intros Hm. unfold machineStates.
  rewrite (foldl_insert_lookup models.ID state_of_machine).
  destruct (last_filter_Some (fun a => models.ID a = models.ID m) machines)
    as [_ [a ->]]; [by exists m|]. by eexists.
Qed.

(** X14: the first tick announces a non-empty fleet.  With an empty
    previous map, a client connected, at least one machine fetched and a
    successful rendering, the tick hands the machines event to the broker,
    and the event is in the intake queue afterwards if the queue had
    room. *)
Theorem X14_first_tick_broadcasts (env : Collaborators) (st : PollerState)
    (w : World) (m : models.Machine) (machines : list models.Machine)
    (users : list headscale.User.t) (html : string) :
  WF (broker w) →
  ClientCount (broker w) ≠ 0%Z →
  lastMachineStates st = ∅ →
  FetchMachines env = Some (m :: machines) →
  ListUsers env = Some users →
  ExecuteTemplate env "machines-table" (mkData (Some (m :: machines)) users)
  = Some html →
  ∃ st' w' tr,
    tick env st w = Returns (st', w')
    ∧ trace w' = (trace w ++ tr)%list
    ∧ machinesTable html ∈ broadcasts tr
    ∧ ((length (buf (broadcast (broker w))) < 10)%nat →
       machinesTable html ∈ buf (broadcast (broker w'))).
Proof.
  intros Hwf Hnz Hprev Hm Hu Hr.
  destruct (tick_fetched env st w (m :: machines) users Hwf Hnz Hm Hu)
    as (changed & Hd & ->).
  assert (changed = true) as ->.
  { destruct changed; [done|]. exfalso.
    apply detectMachineChanges_false in Hd. specialize (Hd (models.ID m)).
    rewrite Hprev, lookup_empty in Hd.
    destruct (machineStates_nonempty m (m :: machines)) as [s Hs]; [by left|].
    rewrite Hs in Hd. inversion Hd. }
  rewrite Hr. eexists _, _, _. split; [done|]. unfold after_poll. simpl.
  split_and!.
  - rewrite <- !app_assoc. reflexivity.
  - unfold broadcasts. simpl. left.
  - intros Hroom.
    pose proof (wf_intake_cap _ Hwf) as Hcap.
    assert (machinesTable html
            ∈ buf (broadcast (sent (machinesTable html) (broker w)))) as Hin.
    { unfold sent, after_offer, has_room. simpl.
      rewrite bool_decide_eq_true_2 by lia. simpl.
      apply elem_of_app. right. by left. }
    unfold poll_broker at 1.
    destruct (detectUserChanges _ _),
      (ExecuteTemplate env "users-table" (mkData None users)); try done.
    unfold sent at 1, after_offer. simpl.
    destruct (has_room _); simpl; [|done].
    apply elem_of_app. by left.
Qed.

(** X15: once the broker has shut down the poller is quiescent.  After the
    shutdown case of [run] the registry is empty, so every later tick
    returns at once: no fetch, no detector, no rendering, no broadcast. *)
Theorem X15_poller_idle_after_shutdown (b b' : Broker)
    (order : list chan_id) (env : Collaborators) (st : PollerState)
    (tr : list call) :
  WF b →
  order ≡ₚ (map_to_list (clients b)).*1 →
  run_done_in order b = Returns b' →
  ClientCount b' = 0%Z
  ∧ tick env st (mkWorld b' tr) = Returns (st, mkWorld b' tr).
Proof.
  intros Hwf P Hrun.
  assert (ClientCount b' = 0%Z) as Hz.
  { unfold run_done_in in Hrun. destruct (done b) eqn:Hd; [|done].
    destruct (run_done_in_spec b order Hwf Hd P) as (b'' & Hrun' & _ & Hcl & _).
    unfold run_done_in in Hrun'. rewrite Hd in Hrun'.
    rewrite Hrun' in Hrun. injection Hrun as <-.
    unfold ClientCount. by rewrite Hcl, map_size_empty. }
  split; [done|]. by apply tick_quiescent.
Qed.

End tick_facts.

(** ** The broker: subscription, delivery and overflow *)
Section broker_more.
Import events.

Lemma after_offer_room (event : Event) (ch : chan) :
  (length (buf ch) < cap ch)%nat →
  after_offer event ch = mkChan (buf ch ++ [event]) (cap ch) false.
Proof.
  intros Hroom. unfold after_offer, has_room.
  by rewrite bool_decide_eq_true_2.
Qed.

Lemma after_offer_full (event : Event) (ch : chan) :
  ¬ (length (buf ch) < cap ch)%nat → after_offer event ch = ch.
Proof.
  intros Hfull. unfold after_offer, has_room.
  by rewrite bool_decide_eq_false_2.
Qed.




(** X18: delivery is first in, first out.  When the intake queue has room,
    a [Broadcast] followed by one broadcast step of the loop fans out the
    oldest waiting event, the new one if none was waiting, to every
    registered queue, each taking it if it has room, and leaves the others
    in the intake in their order. *)
Theorem X18_publish_fifo (b : Broker) (event : Event) :
  WF b →
  (length (buf (broadcast b)) < 10)%nat →
  ∃ first rest b' log,
    (buf (broadcast b) ++ [event])%list = first :: rest
    ∧ publish event b = Returns (b', log)
    ∧ WF b'
    ∧ buf (broadcast b') = rest
    ∧ clients b' = clients b
    ∧ Forall (fun o => what o = first) log
    ∧ (∀ c, is_Some (clients b !! c) →
            chans b' !! c = after_offer first <$> chans b !! c).
Proof.
  intros Hwf Hroom.
  destruct (buf (broadcast b) ++ [event])%list as [|first rest] eqn:Hq.
  { by destruct (buf (broadcast b)). }
  exists first, rest. unfold publish.
  rewrite Broadcast_spec by apply Hwf.
  set (b1 := mkBroker _ _ _ _ _).
  assert (WF b1) as Hwf1.
  { apply (WF_Broadcast event b); [done|]. apply Broadcast_spec, Hwf. }
  assert (buf (broadcast b1) = first :: rest) as Hbuf.
  { unfold b1. simpl. rewrite after_offer_room; [done|].
    by rewrite (wf_intake_cap b Hwf). }
  destruct (run_broadcast_in_spec b1 (map_to_list (clients b1)).*1 first rest
              Hwf1 (reflexivity _) Hbuf)
    as (b' & Hrun & Hcl & Hrest & _ & _ & Hin & _).
  exists b'. eexists. split; [done|]. split; [exact Hrun|].
  split_and!; try done.
  - by eapply WF_run_broadcast_in.
  - apply Forall_fmap, Forall_forall. by intros c _.
Qed.

Lemma take_after_offer (event : Event) (ch : chan) (evs : list Event) :
  (length (buf ch) ≤ cap ch)%nat →
  take (cap ch) (buf (after_offer event ch) ++ evs)
  = take (cap ch) (buf ch ++ event :: evs).
Proof.
  intros Hle. destruct (decide (length (buf ch) < cap ch)%nat) as [Hr|Hf].
  - rewrite after_offer_room by done. simpl. by rewrite <- app_assoc.
  - rewrite after_offer_full by done.
    rewrite !take_app_le by lia. done.
Qed.

Lemma publish_empty_intake (b : Broker) (event : Event) :
  WF b → buf (broadcast b) = [] →
  ∃ b' log,
    publish event b = Returns (b', log)
    ∧ WF b' ∧ buf (broadcast b') = [] ∧ clients b' = clients b
    ∧ (∀ c, is_Some (clients b !! c) →
            chans b' !! c = after_offer event <$> chans b !! c).
Proof.
  intros Hwf Hempty. unfold publish.
  rewrite Broadcast_spec by apply Hwf.
  set (b1 := mkBroker _ _ _ _ _).
  assert (WF b1) as Hwf1.
  { apply (WF_Broadcast event b); [done|]. apply Broadcast_spec, Hwf. }
  assert (buf (broadcast b1) = [event]) as Hbuf.
  { unfold b1. simpl. rewrite after_offer_room.
    - by rewrite Hempty.
    - rewrite (wf_intake_cap b Hwf), Hempty. simpl. lia. }
  destruct (run_broadcast_in_spec b1 (map_to_list (clients b1)).*1 event []
              Hwf1 (reflexivity _) Hbuf)
    as (b' & Hrun & Hcl & Hrest & _ & _ & Hin & _).
  exists b'. eexists. split; [exact Hrun|]. split_and!; try done.
  by eapply WF_run_broadcast_in.
Qed.

(** X19: a subscriber that does not read keeps the oldest events.  After
    any sequence of events has been broadcast and fanned out one by one,
    the queue of a registered subscriber holds the first five of what it
    held followed by the events, in order; the later ones were dropped for
    it, and it is still registered and open. *)
Theorem X19_slow_subscriber_keeps_oldest (evs : list Event) (b : Broker)
    (c : chan_id) (ch : chan) :
  WF b →
  buf (broadcast b) = [] →
  is_Some (clients b !! c) →
  chans b !! c = Some ch →
  ∃ b',
    publish_all evs b = Returns b'
    ∧ clients b' = clients b
    ∧ chans b' !! c = Some (mkChan (take 5 (buf ch ++ evs)) 5 false).
Proof.
  revert b ch. induction evs as [|e evs IH]; intros b ch Hwf Hempty Hreg Hch.
  - exists b. simpl. split_and!; try done.
    destruct Hreg as [v Hv].
    destruct (wf_registered b Hwf c v Hv) as (ch' & Hch' & Hop & Hcap & Hlen).
    rewrite Hch in Hch'. injection Hch' as <-.
    rewrite Hch, app_nil_r, take_ge by done. by destruct ch; simplify_eq/=.
  - destruct (publish_empty_intake b e Hwf Hempty)
      as (b1 & log & Hpub & Hwf1 & Hempty1 & Hcl1 & Hin1).
    simpl. rewrite Hpub.
    destruct Hreg as [v Hv].
    destruct (wf_registered b Hwf c v Hv) as (ch' & Hch' & Hop & Hcap & Hlen).
    rewrite Hch in Hch'. injection Hch' as <-.
    destruct (IH b1 (after_offer e ch) Hwf1 Hempty1) as (b' & Hall & Hcl & Hq).
    + rewrite Hcl1. by eexists.
    + rewrite Hin1 by (by eexists). by rewrite Hch.
    + exists b'. split; [done|]. split; [congruence|].
      rewrite Hq. do 2 f_equal.
      rewrite <- Hcap. apply take_after_offer. lia.
Qed.

Lemma Broadcast_all_spec (evs : list Event) (b : Broker) :
  WF b →
  ∃ b', Broadcast_all evs b = Returns b'
        ∧ WF b'
        ∧ clients b' = clients b ∧ chans b' = chans b
        ∧ done b' = done b ∧ running b' = running b
        ∧ buf (broadcast b') = take 10 (buf (broadcast b) ++ evs).
Proof.
  revert b. induction evs as [|e evs IH]; intros b Hwf; simpl.
  - exists b. split_and!; try done.
    rewrite app_nil_r, take_ge; [done|apply Hwf].
  - rewrite Broadcast_spec by apply Hwf.
    set (b1 := mkBroker _ _ _ _ _).
    assert (WF b1) as Hwf1.
    { apply (WF_Broadcast e b); [done|]. apply Broadcast_spec, Hwf. }
    destruct (IH b1 Hwf1) as (b' & Hall & Hwf' & Hcl & Hch & Hd & Hr & Hbuf).
    exists b'. split_and!; try done.
    rewrite Hbuf. simpl. rewrite <- (wf_intake_cap b Hwf).
    apply take_after_offer. rewrite (wf_intake_cap b Hwf). apply Hwf.
Qed.

(** X20: while the loop takes no case, any number of [Broadcast] calls
    returns; the intake queue keeps the first ten of the events waiting and
    drops the later ones, and the registry and the subscriber queues are
    not touched. *)
Theorem X20_intake_keeps_oldest (evs : list Event) (b : Broker) :
  WF b →
  ∃ b', Broadcast_all evs b = Returns b'
        ∧ clients b' = clients b ∧ chans b' = chans b
        ∧ buf (broadcast b') = take 10 (buf (broadcast b) ++ evs).
Proof.
  intros Hwf.
  destruct (Broadcast_all_spec evs b Hwf) as (b' & ? & _ & ? & ? & _ & _ & ?).
  by exists b'.
Qed.

(** Only a loop at its [select] returns: once [run] has returned it holds
    no handle, the [done] channel is closed and the registry is empty. *)
Lemma reachable_with_stopped (task : option loop_task) (b : Broker) :
  reachable_with task b → running b = false →
  task = None ∧ done b = true ∧ clients b = ∅.
Proof.
  induction 1 as [|b client b' _ IH Hs|b client Hb IH
                  |b client b' _ IH Hu|b client b' Hb IH Hun
                  |task b event b' Hb IH He
                  |task b b' _ IH Hc|b order b' log Hb IH Hr P Hrun
                  |b order b' Hb IH Hr P Hrun]; intros Hstop.
  - done.
  - unfold Subscribe in Hs. destruct (running b) eqn:Hr; [|done].
    injection Hs as _ <-. simpl in Hstop. congruence.
  - simpl in Hstop. by destruct (IH Hstop).
  - unfold Unsubscribe in Hu. destruct (running b) eqn:Hr; [|done].
    injection Hu as <-. congruence.
  - destruct (reachable_with_WF _ b Hb) as [Hwf _].
    destruct (run_unregister_spec b client Hwf)
      as (b'' & Hun' & _ & _ & _ & _ & Hr' & _).
    rewrite Hun' in Hun. injection Hun as <-.
    rewrite Hr' in Hstop. by destruct (IH Hstop).
  - destruct (reachable_with_WF _ b Hb) as [Hwf _].
    rewrite Broadcast_spec in He by apply Hwf.
    injection He as <-. simpl in *. by apply IH.
  - unfold Close in Hc. destruct (done b); [done|].
    injection Hc as <-. simpl in *. destruct (IH Hstop) as (? & ? & ?). done.
  - unfold run_broadcast_in in Hrun.
    destruct (recv (broadcast b)) as [[[e ok] intake]|]; [|done].
    destruct (fanout order e (chans b)) as [[cs l]| |]; [|done..].
    injection Hrun as <- _. simpl in Hstop. congruence.
  - unfold run_done_in in Hrun. destruct (done b) eqn:Hd; [|done].
    destruct (close_all order (chans b)); [|done..].
    by injection Hrun as <-.
Qed.

(** X21: in every state a broker can reach from [NewBroker], by the
    exported operations and the steps of its loop in any interleaving, a
    rendezvous on [register] or [unregister] being followed by the loop's
    case for the handle received, the invariant holds; nothing panics but
    a second [Close]; and once [run] has returned the [done] channel is
    closed and the registry is empty, so [ClientCount] is 0. *)
Theorem X21_reachable_states (b : Broker) :
  reachable b →
  WF b
  ∧ (∀ event, Broadcast event b ≠ Panics)
  ∧ (∀ client, Unsubscribe client b ≠ Panics)
  ∧ Subscribe b ≠ Panics
  ∧ (∀ client, run_unregister client b ≠ Panics)
  ∧ (∀ order, order ≡ₚ (map_to_list (clients b)).*1 →
              run_broadcast_in order b ≠ Panics
              ∧ run_done_in order b ≠ Panics)
  ∧ (Close b = Panics ↔ done b = true)
  ∧ (running b = false → done b = true ∧ ClientCount b = 0%Z).
Proof.
  intros Hreach.
  destruct (reachable_no_panic b Hreach) as (Hb & Hu & Hs & Hun & Hl).
  split_and!; try done.
  - by apply reachable_WF.
  - unfold Close. by destruct (done b).
  - intros Hstop. destruct Hreach as [task Hreach].
    destruct (reachable_with_stopped task b Hreach Hstop) as (_ & Hd & Hcl).
    split; [done|]. unfold ClientCount. by rewrite Hcl, map_size_empty.
Qed.

End broker_more.

(** ** The transport: framing and the order of delivery *)
Section transport_more.
Import events handlers.

Lemma split_lines_cons (c : ascii) (s : string) :
  split_lines (String c s)
  = if Ascii.eqb c "010"%char then EmptyString :: split_lines s
    else match split_lines s with
         | line :: lines => String c line :: lines
         | [] => [String c EmptyString]
         end.
Proof. done. Qed.

Lemma split_lines_nonempty (s : string) : split_lines s ≠ [].
Proof.
  induction s as [|c s IH]; [done|]. rewrite split_lines_cons.
  destruct (Ascii.eqb c "010"%char); [done|]. by destruct (split_lines s).
Qed.

Lemma join_lines_cons (line : string) (lines : list string) :
  lines ≠ [] → join_lines (line :: lines) = line +:+ nl +:+ join_lines lines.
Proof. by destruct lines. Qed.

(** X22: the data lines of a frame carry the payload exactly.  [split_lines]
    yields one more line than the payload has line feeds, none of them
    containing a line feed, so no data line can end the frame early, and
    joining the lines with line feeds gives the payload back. *)
Theorem X22_split_lines_round_trip (s : string) :
  join_lines (split_lines s) = s
  ∧ length (split_lines s) = S (count_newlines s)
  ∧ Forall (fun line => has_newline line = false) (split_lines s).
Proof.
  induction s as [|c s (IHj & IHl & IHn)]; [by repeat constructor|].
  rewrite split_lines_cons. simpl.
  pose proof (split_lines_nonempty s) as Hne.
  destruct (Ascii.eqb c "010"%char) eqn:Hc.
  - apply Ascii.eqb_eq in Hc as ->. split_and!.
    + rewrite join_lines_cons by done. by rewrite IHj.
    + simpl. by rewrite IHl.
    + by constructor.
  - destruct (split_lines s) as [|line lines]; [done|]. split_and!.
    + destruct lines as [|l2 lines]; [simpl in *; by rewrite IHj|].
      rewrite <- IHj, !(join_lines_cons _ (l2 :: lines)) by done.
      reflexivity.
    + simpl in *. lia.
    + apply Forall_cons in IHn as [Hl Hls]. constructor; [|done].
      simpl. by rewrite Hc, Hl.
Qed.

Lemma stream_drains (evs : list Event) (n : nat) (sched : list (bool * bool))
    (w : list string) :
  Forall (fun p => p.1 = false) sched →
  (length evs < length sched)%nat →
  stream sched (mkChan evs n false) w
  = (Waiting, mkChan [] n false, (w ++ (frame <$> evs))%list).
Proof.
  revert sched w. induction evs as [|e evs IH]; intros sched w Hctx Hlen.
  - destruct Hctx as [|[ctx_done pick] sched Hp _]; [simpl in Hlen; lia|].
    simpl in Hp. subst ctx_done. simpl. by rewrite app_nil_r.
  - destruct Hctx as [|[ctx_done pick] sched Hp Hctx]; [simpl in Hlen; lia|].
    simpl in Hp. subst ctx_done. simpl in *.
    unfold stream_select, recv. simpl.
    rewrite IH by (done || lia). by rewrite <- app_assoc.
Qed.

(** X23: the transport delivers in order and loses nothing.  On an open
    queue, with the request context not cancelled, the loop frames the
    buffered events in their order, empties the queue and then waits for
    the next event without writing anything else. *)
Theorem X23_stream_in_order (ch : chan) (sched : list (bool * bool))
    (w : list string) :
  closed ch = false →
  Forall (fun p => p.1 = false) sched →
  (length (buf ch) < length sched)%nat →
  stream sched ch w
  = (Waiting, mkChan [] (cap ch) false, (w ++ (frame <$> buf ch))%list).
Proof.
  destruct ch as [evs n cl]. simpl. intros ->. apply stream_drains.
Qed.

Lemma stream_output_grows (sched : list (bool * bool)) (ch : chan)
    (w : list string) :
  w `prefix_of` (stream sched ch w).2.
Proof.
  revert ch w. induction sched as [|[ctx_done pick] sched IH]; intros ch w;
    simpl; [done|].
  unfold stream_select.
  destruct (recv ch) as [[[event ok] ch1]|]; simpl.
  - destruct (ctx_done && pick); simpl; [done|].
    etrans; [|apply IH]. by apply prefix_app_r.
  - by destruct ctx_done.
Qed.

(** X24: the only way out of the transport loop is the cancellation of the
    request context: a run that has exited saw the context cancelled on
    some pass.  Whatever the run, nothing already written to the response
    is lost or rewritten. *)
Theorem X24_stream_exit (sched : list (bool * bool)) (ch : chan)
    (w : list string) :
  w `prefix_of` (stream sched ch w).2
  ∧ ((stream sched ch w).1.1 = Exited →
     Exists (fun p => p.1 = true) sched).
Proof.
  split; [apply stream_output_grows|].
  destruct (stream sched ch w) as [[status ch'] w'] eqn:Hs. simpl.
  intros ->. by eapply stream_exits_only_on_cancel.
Qed.

End transport_more.

(** ** internal/auth: who gets through the middleware *)
Section auth_facts.
Import auth.

Lemma append_String (a : ascii) (p r : string) :
  String a p +:+ r = String a (p +:+ r).
Proof. reflexivity. Qed.

Lemma append_empty (r : string) : EmptyString +:+ r = r.
Proof. reflexivity. Qed.

Lemma append_assoc (p q r : string) : (p +:+ q) +:+ r = p +:+ (q +:+ r).
Proof.
  induction p as [|a p IH]; [done|]. by rewrite !append_String, IH.
Qed.

Lemma prefix_spec (p s : string) :
  String.prefix p s = true ↔ ∃ rest, s = p +:+ rest.
Proof.
  revert s. induction p as [|a p IH]; intros s; simpl.
  - destruct s; (split; [intros _; by eexists|done]).
  - destruct s as [|b s]; simpl.
    + split; [done|]. intros [rest Hr]. by rewrite append_String in Hr.
    + destruct (ascii_dec a b) as [->|Hne].
      * rewrite IH. split; intros [rest Hr]; exists rest;
          rewrite append_String in *; congruence.
      * split; [done|]. intros [rest Hr]. rewrite append_String in Hr.
        congruence.
Qed.

Lemma isPublicPath_spec (path : string) :
  isPublicPath path = true
  ↔ ∃ p, p ∈ publicPaths
         ∧ (path = p ∨ ∃ rest, path = p +:+ "/" +:+ rest).
Proof.
  unfold isPublicPath. rewrite existsb_elem_of.
  split; intros (p & Hp & Hm); exists p; (split; [done|]).
  - apply orb_true_iff in Hm as [Heq|Hpre].
    + left. by apply String.eqb_eq.
    + right. apply prefix_spec in Hpre as [rest ->]. exists rest.
      apply append_assoc.
  - apply orb_true_iff. destruct Hm as [->|[rest ->]].
    + left. apply String.eqb_refl.
    + right. apply prefix_spec. exists rest. symmetry. apply append_assoc.
Qed.

(** X25: the paths that skip authentication are the three login paths
    themselves and what lies below them, behind a slash; a path that merely
    begins like one of them is not public.  In particular every public path
    begins with "/auth/". *)
Theorem X25_isPublicPath (path : string) :
  (isPublicPath path = true
   ↔ ∃ p, p ∈ publicPaths
          ∧ (path = p ∨ ∃ rest, path = p +:+ "/" +:+ rest))
  ∧ (isPublicPath path = true → ∃ rest, path = "/auth/" +:+ rest)
  ∧ (∀ p c rest, p ∈ publicPaths → c ≠ "/"%char →
                 isPublicPath (p +:+ String c rest) = false).
Proof.
  split; [apply isPublicPath_spec|]. split.
  - intros (p & Hp & Hm)%isPublicPath_spec.
    unfold publicPaths in Hp. rewrite !elem_of_cons, elem_of_nil in Hp.
    destruct Hp as [->|[->|[->|[]]]]; destruct Hm as [->|[rest ->]];
      by eexists.
  - intros p c rest Hp Hc.
    destruct (isPublicPath (p +:+ String c rest)) eqn:Hpub; [|done].
    exfalso. apply isPublicPath_spec in Hpub as (q & Hq & Hm).
    unfold publicPaths in Hp, Hq.
    rewrite !elem_of_cons, elem_of_nil in Hp, Hq.
    destruct Hp as [->|[->|[->|[]]]]; destruct Hq as [->|[->|[->|[]]]];
      destruct Hm as [Hm|[rest' Hm]]; vm_compute in Hm; congruence.
Qed.

Lemma isAuthorizedUser_spec (m : Middleware) (userID : N)
    (tags : list string) :
  isAuthorizedUser m userID tags = true
  ↔ ∃ ts, config.Tailscale (Listeners m) = Some ts
          ∧ (userID ∈ config.AdminUserIDs ts
             ∨ ∃ t, t ∈ tags ∧ t ∈ config.AdminUserTags ts).
Proof.
  unfold isAuthorizedUser.
  destruct (config.Tailscale (Listeners m)) as [ts|];
    [|split; [done|by intros (ts & [=] & _)]].
  destruct (existsb _ (config.AdminUserIDs ts)) eqn:Hid.
  - split; [|done]. intros _. exists ts. split; [done|]. left.
    apply existsb_elem_of in Hid as (a & Ha & ->%N.eqb_eq). done.
  - rewrite existsb_elem_of. split.
    + intros (t & Ht & Hadm). exists ts. split; [done|]. right.
      apply existsb_elem_of in Hadm as (a & Ha & ->%String.eqb_eq).
      by exists a.
    + intros (ts' & [= <-] & [Hin|(t & Ht & Hadm)]).
      * exfalso.
        assert (existsb (λ adminID, N.eqb userID adminID)
                        (config.AdminUserIDs ts) = true) as Hx.
        { apply existsb_elem_of. exists userID. by rewrite N.eqb_refl. }
        congruence.
      * exists t. split; [done|]. apply existsb_elem_of.
        exists t. by rewrite String.eqb_refl.
Qed.

(** X26: [isAuthorizedUser] admits a user exactly when the Tailscale
    listener is configured and either the user ID is one of its admin IDs
    or one of the user's tags is one of its admin tags.  So without that
    listener, or with both lists empty, nobody is admitted, and a user who
    is admitted stays admitted whatever further tags the node carries. *)
Theorem X26_isAuthorizedUser (m : Middleware) (userID : N)
    (tags : list string) :
  (isAuthorizedUser m userID tags = true
   ↔ ∃ ts, config.Tailscale (Listeners m) = Some ts
           ∧ (userID ∈ config.AdminUserIDs ts
              ∨ ∃ t, t ∈ tags ∧ t ∈ config.AdminUserTags ts))
  ∧ ((∀ ts, config.Tailscale (Listeners m) = Some ts →
            config.AdminUserIDs ts = [] ∧ config.AdminUserTags ts = []) →
     isAuthorizedUser m userID tags = false)
  ∧ (∀ more, isAuthorizedUser m userID tags = true →
             isAuthorizedUser m userID (more ++ tags) = true
             ∧ isAuthorizedUser m userID (tags ++ more) = true).
Proof.
  split; [apply isAuthorizedUser_spec|]. split.
  - intros Hempty.
    destruct (isAuthorizedUser m userID tags) eqn:Hauth; [|done].
    apply isAuthorizedUser_spec in Hauth as (ts & Hts & Hadm).
    destruct (Hempty ts Hts) as [Hids Htags]. rewrite Hids, Htags in Hadm.
    destruct Hadm as [Hin|(t & _ & Hin)]; inversion Hin.
  - intros more (ts & Hts & Hadm)%isAuthorizedUser_spec.
    split; apply isAuthorizedUser_spec; exists ts; (split; [done|]);
      (destruct Hadm as [Hin|(t & Ht & Hin)]; [by left|right]);
      exists t; (split; [|done]); apply elem_of_app; auto.
Qed.

Lemma authenticateWithWhoIs_ok (m : Middleware) (remoteAddr : string)
    (whoIs : string → option WhoIsResponse) (u : User) :
  authenticateWithWhoIs m remoteAddr whoIs = inl u →
  remoteAddr ≠ ""
  ∧ Method u = "whois" ∧ Email u = ""
  ∧ isAuthorizedUser m (ID u) (Tags u) = true.
Proof.
  unfold authenticateWithWhoIs.
  destruct (String.eqb remoteAddr "") eqn:He; [done|].
  apply String.eqb_neq in He.
  destruct (whoIs _) as [resp|]; [|done].
  destruct (Node resp) as [node|]; [|done].
  destruct (UserProfile resp); [|done]. simpl.
  destruct (NodeUser node =? 0)%Z; [done|].
  destruct (isAuthorizedUser m _ (NodeTags node)) eqn:Hauth; [|done].
  simpl. intros [= <-]. by simpl.
Qed.

(** X27: a user authenticated through WhoIs is an administrator.  When
    [authenticateWithWhoIs] returns a user, the request had a remote
    address, the method recorded is "whois", and the user's ID is one of the
    admin IDs of the Tailscale listener or one of its tags is an admin
    tag. *)
Theorem X27_whois_user_is_admin (m : Middleware) (remoteAddr : string)
    (whoIs : string → option WhoIsResponse) (u : User) :
  authenticateWithWhoIs m remoteAddr whoIs = inl u →
  remoteAddr ≠ ""
  ∧ Method u = "whois"
  ∧ ∃ ts, config.Tailscale (Listeners m) = Some ts
          ∧ (ID u ∈ config.AdminUserIDs ts
             ∨ ∃ t, t ∈ Tags u ∧ t ∈ config.AdminUserTags ts).
Proof.
  intros (Haddr & Hm & _ & Hauth)%authenticateWithWhoIs_ok.
  split; [done|]. split; [done|]. by apply isAuthorizedUser_spec.
Qed.

End auth_facts.

(** ** internal/auth: the address looked up and the decision taken *)
Section auth_decision.
Import auth.

Lemma LastIndex_colon_app (h s : string) :
  LastIndex_colon (h +:+ s)
  = match LastIndex_colon s with
    | Some i => Some (String.length h + i)
    | None => LastIndex_colon h
    end.
Proof.
  induction h as [|c h IH].
  - rewrite append_empty. simpl. by destruct (LastIndex_colon s).
  - rewrite append_String. simpl. rewrite IH.
    by destruct (LastIndex_colon s).
Qed.

Lemma substring_prefix (h r : string) :
  String.substring 0 (String.length h) (h +:+ r) = h.
Proof.
  induction h as [|c h IH].
  - rewrite append_empty. simpl. by destruct r.
  - rewrite append_String. simpl. by rewrite IH.
Qed.

Lemma append_not_empty (h : string) (c : ascii) (r : string) :
  String.eqb (h +:+ String c r) "" = false.
Proof. destruct h; by rewrite ?append_String, ?append_empty. Qed.

(** X28: the WhoIs lookup is made for the host part of the remote address.
    For an address [host:port] whose port holds no colon, what
    [authenticateWithWhoIs] returns depends on the answer of [WhoIs] for
    [host] alone; an address without any colon is looked up as it is. *)
Theorem X28_whois_lookup_address (m : Middleware) (host port : string)
    (whoIs1 whoIs2 : string → option WhoIsResponse) :
  LastIndex_colon port = None →
  (whoIs1 host = whoIs2 host →
   authenticateWithWhoIs m (host +:+ ":" +:+ port) whoIs1
   = authenticateWithWhoIs m (host +:+ ":" +:+ port) whoIs2)
  ∧ (whoIs1 port = whoIs2 port →
     authenticateWithWhoIs m port whoIs1 = authenticateWithWhoIs m port whoIs2).
Proof.
  intros Hport. split; intros Hagree; unfold authenticateWithWhoIs.
  - change (":" +:+ port) with (String ":"%char port).
    rewrite append_not_empty, LastIndex_colon_app. simpl. rewrite Hport.
    simpl. rewrite Nat.add_0_r, substring_prefix. by rewrite Hagree.
  - rewrite Hport. by rewrite Hagree.
Qed.

(** X29: what [RequireAuth] lets through.  A request reaches [next] without
    a user exactly when no listener is configured at all or its path is
    public.  Otherwise it reaches [next] only with a user: the one WhoIs
    authenticated, the Tailscale listener being configured, or else the one
    of the OIDC session, the authenticator being there; a middleware made
    by [NewMiddleware] has an authenticator only with an HTTP listener that
    configures OIDC. *)
Theorem X29_RequireAuth (m : Middleware) (path remoteAddr : string)
    (whoIs : string → option WhoIsResponse) (session : option User) :
  (RequireAuth m path remoteAddr whoIs session = Next None
   ↔ (config.Tailscale (Listeners m) = None
      ∧ config.HTTP (Listeners m) = None)
     ∨ isPublicPath path = true)
  ∧ (∀ u, RequireAuth m path remoteAddr whoIs session = Next (Some u) →
          (is_Some (config.Tailscale (Listeners m))
           ∧ authenticateWithWhoIs m remoteAddr whoIs = inl u)
          ∨ (oidcAuth m = true ∧ session = Some u))
  ∧ (∀ cfg oidc_ok,
       oidcAuth (NewMiddleware cfg oidc_ok) = true →
       ∃ http, config.HTTP cfg = Some http ∧ config.OIDC http = true).
Proof.
  split_and!.
  - unfold RequireAuth.
    destruct (config.Tailscale (Listeners m)) as [ts|],
             (config.HTTP (Listeners m)) as [http|],
             (isPublicPath path);
      try (split; [auto|done]);
      try (destruct (authenticateWithWhoIs m remoteAddr whoIs));
      destruct (oidcAuth m), session;
      split; try done; intros [[? ?]|?]; done.
  - intros u. unfold RequireAuth.
    destruct (config.Tailscale (Listeners m)) as [ts|],
             (config.HTTP (Listeners m)) as [http|],
             (isPublicPath path);
      try done;
      try (destruct (authenticateWithWhoIs m remoteAddr whoIs) as [u'|e]);
      try (intros [= <-]; left; by eauto);
      destruct (oidcAuth m), session; try done; intros [= <-]; by right.
  - intros cfg oidc_ok. unfold NewMiddleware. simpl.
    destruct (config.HTTP cfg) as [http|]; [|done].
    intros [? _]%andb_true_iff. by exists http.
Qed.

End auth_decision.

(** ** The further properties on concrete inputs *)
Section more_examples.
Import detect events handlers users_page auth.

Lemma X1_EqualsSlice_witness :
  NoDup ["a"; "b"]
  ∧ SetsSlice.EqualsSlice (Sets.FromSlice ["b"; "a"; "b"]) ["a"; "b"] = true.
Proof.
  assert (NoDup ["a"; "b"]) as Hnd.
  { apply (bool_decide_unpack _). vm_compute. exact I. }
  split; [exact Hnd|].
  apply (proj2 (X1_EqualsSlice_NoDup _ ["a"; "b"] Hnd)).
  apply FromSlice_ext. intros x. rewrite !elem_of_cons, elem_of_nil. tauto.
Defined.

Lemma X8_exit_routes_witness :
  models.ExitNodeStatus machine_a_pending = "Awaiting approval"
  ∧ models.ExitNodeStatus machine_a = "Allowed"
  ∧ detectMachineChanges (machineStates [machine_a_pending])
                         (machineStates [machine_a]) = Some false.
Proof.
  split; [reflexivity|]. split; [reflexivity|].
  apply X8_exit_routes_not_detected.
  constructor; [|constructor].
  unfold same_but_exit_routes. split_and!; try reflexivity;
    intros x; reflexivity.
Defined.

Lemma X9_count_witness :
  default 0%Z (countMachinesPerUser [machine_a; machine_a_pending] !! "-")
  = 2%Z.
Proof.
  apply (proj1 (X9_countMachinesPerUser [machine_a; machine_a_pending] "-"
                  eq_refl)).
Defined.

Lemma X11_userStates_witness :
  ∃ u, u ∈ [alice] ∧ headscale.User.Id u = 1%N
       ∧ headscale.User.Name u = "alice"
       ∧ length (machines_of (headscale.User.Name u) [machine_a]) = 0.
Proof.
  destruct (X11_userStates_counts [alice] [machine_a] 1
              (UserState.mk 1 "alice" 0) eq_refl eq_refl)
    as (u & Hu & Hid & _ & Hname & Hcount).
  exists u. simpl in *. split_and!; try done. lia.
Defined.

Lemma X12_tick_safe_witness :
  ∃ st' w',
    tick env_render_fails first_tick (mkWorld busy_broker []) = Returns (st', w')
    ∧ clients (broker w') = clients busy_broker
    ∧ chans (broker w') = chans busy_broker.
Proof.
  destruct (X12_tick_safe env_render_fails first_tick (mkWorld busy_broker [])
              WF_busy_broker)
    as (st' & w' & tr & Ht & _ & _ & Hcl & Hch & _).
  by exists st', w'.
Defined.

Lemma X13_steady_state_witness :
  ∃ st1 w1,
    tick env_render_fails first_tick (mkWorld busy_broker []) = Returns (st1, w1)
    ∧ tick env_ok st1 w1
      = Returns (st1, mkWorld (broker w1)
                              (trace w1 ++ [CallFetchMachines; CallListUsers;
                                            CallDetectMachines;
                                            CallDetectUsers])).
Proof.
  apply (X13_steady_state env_render_fails env_ok first_tick
           (mkWorld busy_broker []) [machine_a] [alice] WF_busy_broker);
    (reflexivity || (vm_compute; discriminate)).
Defined.

Lemma X14_first_tick_witness :
  ∃ st' w',
    tick env_ok first_tick (mkWorld busy_broker []) = Returns (st', w')
    ∧ machinesTable "<table></table>" ∈ broadcasts (trace w')
    ∧ machinesTable "<table></table>" ∈ buf (broadcast (broker w')).
Proof.
  assert (ClientCount busy_broker ≠ 0%Z) as Hnz by (vm_compute; discriminate).
  destruct (X14_first_tick_broadcasts env_ok first_tick (mkWorld busy_broker [])
              machine_a [] [alice] "<table></table>" WF_busy_broker Hnz
              eq_refl eq_refl eq_refl eq_refl)
    as (st' & w' & tr & Ht & Htr & Hin & Hbuf).
  exists st', w'. simpl in Htr. rewrite Htr. split_and!; try done.
  apply Hbuf. simpl. lia.
Defined.

Lemma X15_idle_after_shutdown_witness :
  ∃ b',
    run_done closing_broker = Returns b'
    ∧ ClientCount b' = 0%Z
    ∧ tick env_ok first_tick (mkWorld b' []) = Returns (first_tick, mkWorld b' []).
Proof.
  assert (WF closing_broker) as Hwf.
  { apply (WF_Close busy_broker); [exact WF_busy_broker|reflexivity]. }
  destruct (run_done closing_broker) as [b'| |] eqn:Hrun;
    [|vm_compute in Hrun; discriminate..].
  exists b'. split; [reflexivity|].
  apply (X15_poller_idle_after_shutdown closing_broker b'
           (map_to_list (clients closing_broker)).*1 env_ok first_tick []
           Hwf (reflexivity _) Hrun).
Defined.



Lemma X18_publish_witness :
  ∃ b' log,
    publish ev1 busy_broker = Returns (b', log)
    ∧ buf (broadcast b') = [ev1]
    ∧ Forall (fun o => what o = ev) log.
Proof.
  assert (length (buf (broadcast busy_broker)) < 10)%nat as Hroom
    by (simpl; lia).
  destruct (X18_publish_fifo busy_broker ev1 WF_busy_broker Hroom)
    as (first & rest & b' & log & Hq & Hp & _ & Hrest & _ & Hlog & _).
  simpl in Hq. injection Hq as <- <-.
  by exists b', log.
Defined.

Lemma WF_idle_broker : WF idle_broker.
Proof.
  split; simpl; try done; try lia.
  intros c v Hc.
  destruct (decide (c = 1%positive)) as [->|H1].
  { exists (mkChan [ev; ev; ev; ev] 5 false). rewrite lookup_insert_eq.
    simpl. split_and!; done || lia. }
  rewrite lookup_insert_ne in Hc by done.
  destruct (decide (c = 2%positive)) as [->|H2].
  { exists (make_chan 5). rewrite lookup_insert_ne, lookup_insert_eq by done.
    simpl. split_and!; done || lia. }
  rewrite lookup_insert_ne in Hc by done. by rewrite lookup_empty in Hc.
Qed.

Lemma X19_slow_subscriber_witness :
  ∃ b',
    publish_all [ev1; ev2] idle_broker = Returns b'
    ∧ chans b' !! 1%positive = Some (mkChan [ev; ev; ev; ev; ev1] 5 false).
Proof.
  assert (is_Some (clients idle_broker !! 1%positive)) as Hreg by (by eexists).
  destruct (X19_slow_subscriber_keeps_oldest [ev1; ev2] idle_broker 1%positive
              (mkChan [ev; ev; ev; ev] 5 false) WF_idle_broker eq_refl Hreg
              eq_refl)
    as (b' & Hp & _ & Hq).
  by exists b'.
Defined.

Lemma X20_intake_witness :
  ∃ b',
    Broadcast_all (replicate 12 ev1) busy_broker = Returns b'
    ∧ buf (broadcast b') = ev :: replicate 9 ev1.
Proof.
  destruct (X20_intake_keeps_oldest (replicate 12 ev1) busy_broker
              WF_busy_broker)
    as (b' & Hb & _ & _ & Hbuf).
  by exists b'.
Defined.

Lemma reachable_session_live : reachable_with None session_live.
Proof.
  set (s1 := mkBroker ∅ (<[1%positive := make_chan 5]> ∅) (make_chan 10)
                      false true).
  set (s3 := mkBroker (<[1%positive := true]> ∅)
                      (<[1%positive := make_chan 5]> ∅)
                      (mkChan [ev] 10 false) false true).
  apply (reach_run_broadcast s3 [1%positive] session_live
           [mkOffer 1%positive ev true]).
  - apply (reach_Broadcast None (run_register 1%positive s1) ev s3).
    + apply reach_run_register.
      apply (reach_Subscribe NewBroker 1%positive s1).
      * apply reach_new.
      * reflexivity.
    + reflexivity.
  - reflexivity.
  - reflexivity.
  - reflexivity.
Qed.

Lemma reachable_session_over : reachable_with None session_over.
Proof.
  set (s5 := mkBroker (clients session_live) (chans session_live)
                      (broadcast session_live) true true).
  apply (reach_run_done s5 [1%positive] session_over).
  - apply (reach_Close None session_live s5).
    + apply reachable_session_live.
    + reflexivity.
  - reflexivity.
  - reflexivity.
  - reflexivity.
Qed.

Lemma X21_reachable_witness :
  (reachable session_live
   ∧ clients session_live !! 1%positive = Some true
   ∧ chans session_live !! 1%positive = Some (mkChan [ev] 5 false)
   ∧ WF session_live
   ∧ (∀ client, run_unregister client session_live ≠ Panics)
   ∧ run_broadcast_in [1%positive] session_live ≠ Panics
   ∧ Close session_live ≠ Panics)
  ∧ (reachable session_over
     ∧ running session_over = false
     ∧ chans session_over !! 1%positive = Some (mkChan [ev] 5 true)
     ∧ WF session_over
     ∧ (∀ event, Broadcast event session_over ≠ Panics)
     ∧ Close session_over = Panics
     ∧ ClientCount session_over = 0%Z).
Proof.
  assert (reachable session_live) as Hlive.
  { exists None. apply reachable_session_live. }
  assert (reachable session_over) as Hover.
  { exists None. apply reachable_session_over. }
  split.
  - destruct (X21_reachable_states session_live Hlive)
      as (Hwf & _ & _ & _ & Hun & Hloop & Hclose & _).
    split_and!.
    + exact Hlive.
    + reflexivity.
    + reflexivity.
    + exact Hwf.
    + exact Hun.
    + by apply (Hloop [1%positive]).
    + intros Hp. apply Hclose in Hp. discriminate Hp.
  - destruct (X21_reachable_states session_over Hover)
      as (Hwf & Hb & _ & _ & _ & _ & Hclose & Hstop).
    split_and!.
    + exact Hover.
    + reflexivity.
    + reflexivity.
    + exact Hwf.
    + exact Hb.
    + by apply Hclose.
    + by apply Hstop.
Defined.

Lemma X23_stream_witness :
  stream (replicate 3 (false, false)) (mkChan [ev1; ev2] 5 false) []
  = (Waiting, mkChan [] 5 false, [frame ev1; frame ev2]).
Proof.
  apply (X23_stream_in_order (mkChan [ev1; ev2] 5 false)
           (replicate 3 (false, false)) []).
  - reflexivity.
  - repeat constructor.
  - simpl. lia.
Defined.

Lemma X27_whois_witness :
  authenticateWithWhoIs admin_middleware "100.64.0.1:4321" local_whois
  = inl (mkUser 1 "" "laptop" "whois" ["tag:laptop"])
  ∧ ∃ ts, config.Tailscale (Listeners admin_middleware) = Some ts
          ∧ 1%N ∈ config.AdminUserIDs ts.
Proof.
  assert (authenticateWithWhoIs admin_middleware "100.64.0.1:4321" local_whois
          = inl (mkUser 1 "" "laptop" "whois" ["tag:laptop"])) as Hok
    by reflexivity.
  split; [exact Hok|].
  destruct (X27_whois_user_is_admin _ _ _ _ Hok)
    as (_ & _ & ts & Hts & Hadm).
  exists ts. split; [done|]. injection Hts as <-. simpl. by left.
Defined.

Lemma X28_lookup_witness :
  authenticateWithWhoIs admin_middleware ("100.64.0.1" +:+ ":" +:+ "4321")
                        local_whois
  = authenticateWithWhoIs admin_middleware ("100.64.0.1" +:+ ":" +:+ "4321")
                          (fun _ => Some laptop).
Proof.
  apply (proj1 (X28_whois_lookup_address admin_middleware "100.64.0.1" "4321"
                  local_whois (fun _ => Some laptop) eq_refl)).
  reflexivity.
Defined.

End more_examples.
